(** * The secret-santa registry: server state, persistence and shuffle

    A shallow embedding of [src/index.ts]: the in-memory registry (a
    JavaScript [Map] and three module-level flags), the snapshot functions
    [captureState] / [restoreState], the startup loader
    [loadPersistedState], the writer [persistState], the shuffle
    [shuffleAssignments] and the three mutating route handlers
    ([/api/register], [/api/shuffle], [/api/registration/reopen]).

    Conventions of the embedding.
    - A JavaScript string is a [string]; every [ascii] stands for one code
      unit, so [String.length] is [.length].  Strings with code units above
      255 are outside the model.
    - [undefined] and [null] in an optional field are both [None]; the
      source turns one into the other with [??] exactly where the two
      record types differ.
    - What the platform decides (random draws, the clock, whether a file
      operation fails, the request) is an explicit argument of the
      operation that consumes it. *)

From Stdlib Require Import Ascii String DecimalString QArith Qround.
From stdpp Require Import base option list strings gmap sorting.

Set Warnings "-register-all".

Local Open Scope string_scope.
Local Open Scope nat_scope.

(** ** JavaScript strings *)

(** The code units below 256 that [String.prototype.trim] strips: TAB, LF,
    VT, FF, CR, SPACE and NO-BREAK SPACE. *)
Definition is_whitespace (c : ascii) : bool :=
  let n := nat_of_ascii c in
  ((9 <=? n) && (n <=? 13)) || (n =? 32) || (n =? 160).

Fixpoint trimStart (s : string) : string :=
  match s with
  | EmptyString => EmptyString
  | String c rest => if is_whitespace c then trimStart rest else s
  end.

Fixpoint trimEnd (s : string) : string :=
  match s with
  | EmptyString => EmptyString
  | String c rest =>
      match trimEnd rest with
      | EmptyString => if is_whitespace c then EmptyString else String c EmptyString
      | kept => String c kept
      end
  end.

Definition trim (s : string) : string := trimEnd (trimStart s).

(** [s.slice(0, n)] *)
Definition slice0 (n : nat) (s : string) : string := substring 0 n s.

(** [!s] for a string [s] *)
Definition falsy (s : string) : bool :=
  match s with EmptyString => true | _ => false end.

(** [s.replace(/-/g, "")] *)
Fixpoint strip_hyphens (s : string) : string :=
  match s with
  | EmptyString => EmptyString
  | String c rest =>
      if Ascii.eqb c "-"%char then strip_hyphens rest else String c (strip_hyphens rest)
  end.

(** [const randomToken = () => crypto.randomUUID().replace(/-/g, "")],
    given the text [crypto.randomUUID()] returned. *)
Definition randomToken (uuid : string) : string := strip_hyphens uuid.

(** ** JavaScript [Map] with string keys

    A [Map] iterates in insertion order and [set] on a key that is present
    replaces the value where it stands, so the model is the list of entries
    in insertion order. *)
Module JsMap.

Definition t (V : Type) : Type := list (string * V).

Definition empty {V} : t V := [].

Fixpoint get {V} (k : string) (m : t V) : option V :=
  match m with
  | [] => None
  | (k', v) :: rest => if String.eqb k' k then Some v else get k rest
  end.

Definition has {V} (k : string) (m : t V) : bool :=
  match get k m with Some _ => true | None => false end.

Fixpoint set {V} (k : string) (v : V) (m : t V) : t V :=
  match m with
  | [] => [(k, v)]
  | (k', v') :: rest =>
      if String.eqb k' k then (k, v) :: rest else (k', v') :: set k v rest
  end.

(** [const o = m.get(k); if (o) { mutate o }]: the object stored under [k]
    is changed where it stands. *)
Fixpoint update {V} (k : string) (f : V -> V) (m : t V) : t V :=
  match m with
  | [] => []
  | (k', v) :: rest =>
      if String.eqb k' k then (k', f v) :: rest else (k', v) :: update k f rest
  end.

Definition keys {V} (m : t V) : list string := fst <$> m.
Definition values {V} (m : t V) : list V := snd <$> m.
Definition size {V} (m : t V) : nat := length m.

(** [for (const o of m.values()) { mutate o }] *)
Definition for_each_value {V} (f : V -> V) (m : t V) : t V :=
  (fun e => (fst e, f (snd e))) <$> m.

End JsMap.

(** ** Data model *)

Record Participant := mkParticipant {
  token : string;
  name : string;
  assignmentToken : option string;
  registeredAt : string;
  ipAddress : option string;
}.

Module Persisted.

Record Participant := mkParticipant {
  token : string;
  name : string;
  assignmentToken : option string;
  registeredAt : string;
  ipAddress : option string;
}.

Record State := mkState {
  participants : list Participant;
  assignmentsReady : bool;
  lastShuffledAt : option string;
  registrationOpen : bool;
}.

End Persisted.

Abbreviation PersistedParticipant := Persisted.Participant.
Abbreviation PersistedState := Persisted.State.

Record AppConfig := { adminPassword : string }.

Definition CONFIG_FILE : string := "config.json".
Definition PARTICIPANTS_FILE : string := "participants.json".

(** The module-level variables [participants], [assignmentsReady],
    [lastShuffledAt] and [registrationOpen]. *)
Record State := mkState {
  participants : JsMap.t Participant;
  assignmentsReady : bool;
  lastShuffledAt : option string;
  registrationOpen : bool;
}.

(** The values the variables are initialised with. *)
Definition initial_state : State :=
  {| participants := JsMap.empty;
     assignmentsReady := false;
     lastShuffledAt := None;
     registrationOpen := true |}.

(** [p.assignmentToken = v] *)
Definition set_assignmentToken (v : option string) (p : Participant) : Participant :=
  {| token := token p; name := name p; assignmentToken := v;
     registeredAt := registeredAt p; ipAddress := ipAddress p |}.

Definition captureParticipant (p : Participant) : PersistedParticipant :=
  {| Persisted.token := token p;
     Persisted.name := name p;
     Persisted.assignmentToken := assignmentToken p;
     Persisted.registeredAt := registeredAt p;
     Persisted.ipAddress := ipAddress p |}.

Definition captureState (st : State) : PersistedState :=
  {| Persisted.assignmentsReady := assignmentsReady st;
     Persisted.lastShuffledAt := lastShuffledAt st;
     Persisted.registrationOpen := registrationOpen st;
     Persisted.participants := captureParticipant <$> JsMap.values (participants st) |}.

Definition restoreParticipant (entry : PersistedParticipant) : Participant :=
  {| token := Persisted.token entry;
     name := Persisted.name entry;
     assignmentToken := Persisted.assignmentToken entry;
     registeredAt := Persisted.registeredAt entry;
     ipAddress := Persisted.ipAddress entry |}.

(** [participants.clear()] followed by one [participants.set] per entry. *)
Definition restoreState (state : PersistedState) : State :=
  {| participants :=
       fold_left (fun m entry => JsMap.set (Persisted.token entry) (restoreParticipant entry) m)
                 (Persisted.participants state) JsMap.empty;
     assignmentsReady := Persisted.assignmentsReady state;
     lastShuffledAt := Persisted.lastShuffledAt state;
     registrationOpen := Persisted.registrationOpen state |}.

(** ** JSON values

    What [JSON.parse] returns.  Of a number the program only ever asks
    [String(n)] and [Boolean(n)], so the number type is left open behind
    these two operations. *)
Class JsNumber (number : Type) := {
  Number_toString : number -> string;
  Number_toBoolean : number -> bool;
}.

Section Json.

Context {number : Type} `{!JsNumber number}.

(** An object is the list of its own properties, each key once. *)
Inductive json :=
| JNull
| JBool (b : bool)
| JNum (n : number)
| JStr (s : string)
| JArr (items : list json)
| JObj (props : list (string * json)).

Fixpoint own_property (key : string) (props : list (string * json)) : option json :=
  match props with
  | [] => None
  | (k, v) :: rest => if String.eqb k key then Some v else own_property key rest
  end.

(** [typeof v === "object" && v]: objects and arrays ([typeof null] is
    ["object"] too, but [null] is falsy). *)
Definition is_object (v : json) : bool :=
  match v with
  | JObj _ | JArr _ => true
  | _ => false
  end.

(** [v[key]] for an object or array [v] and a key that neither
    [Object.prototype] nor [Array.prototype] defines and that is not an
    array's own ["length"] or an index; [None] is [undefined].  For these
    keys, which are the only ones the program asks for, [key in v] holds
    exactly when [field key v] is not [None]. *)
Definition field (key : string) (v : json) : option json :=
  match v with
  | JObj props => own_property key props
  | _ => None
  end.

(** [String(v)].  [None] is the [TypeError] that converting an object to a
    primitive raises when the object has an own property ["toString"]
    (which, coming from JSON, is not callable) and so nothing callable
    returns a primitive.  An array is joined with [","], an element that
    is [null] giving the empty text. *)
Fixpoint js_String (v : json) : option string :=
  match v with
  | JNull => Some "null"
  | JBool true => Some "true"
  | JBool false => Some "false"
  | JNum n => Some (Number_toString n)
  | JStr s => Some s
  | JArr items =>
      (fix join (l : list json) : option string :=
         match l with
         | [] => Some ""
         | x :: rest =>
             match (match x with JNull => Some "" | _ => js_String x end) with
             | None => None
             | Some s =>
                 match rest with
                 | [] => Some s
                 | _ :: _ =>
                     match join rest with
                     | None => None
                     | Some r => Some (s ++ "," ++ r)
                     end
                 end
             end
         end) items
  | JObj props =>
      match own_property "toString" props with
      | Some _ => None
      | None => Some "[object Object]"
      end
  end.

(** [Boolean(v)], [None] being [undefined]. *)
Definition js_Boolean (v : option json) : bool :=
  match v with
  | None | Some JNull => false
  | Some (JBool b) => b
  | Some (JNum n) => Number_toBoolean n
  | Some (JStr s) => negb (falsy s)
  | Some (JArr _) | Some (JObj _) => true
  end.

(** ** [JSON.stringify] of a snapshot *)

Definition nullable (o : option string) : json :=
  match o with Some s => JStr s | None => JNull end.

Definition stringifyParticipant (p : PersistedParticipant) : json :=
  JObj [ ("token", JStr (Persisted.token p));
         ("name", JStr (Persisted.name p));
         ("assignmentToken", nullable (Persisted.assignmentToken p));
         ("registeredAt", JStr (Persisted.registeredAt p));
         ("ipAddress", nullable (Persisted.ipAddress p)) ].

Definition stringifyState (snapshot : PersistedState) : json :=
  JObj [ ("assignmentsReady", JBool (Persisted.assignmentsReady snapshot));
         ("lastShuffledAt", nullable (Persisted.lastShuffledAt snapshot));
         ("registrationOpen", JBool (Persisted.registrationOpen snapshot));
         ("participants", JArr (stringifyParticipant <$> Persisted.participants snapshot)) ].

(** ** [loadPersistedState]: the callback of [parsed.participants.map]

    The outer [option] is the exception ([None]: [String] threw), the
    inner one the callback's [null]. *)

(** ["key" in participant ? String(participant.key) : ""] *)
Definition text_field (key : string) (participant : json) : option string :=
  match field key participant with
  | Some v => js_String v
  | None => Some ""
  end.

(** [typeof raw === "string" && raw ? raw : fallback], where [raw] is
    ["key" in participant ? participant.key : null]. *)
Definition nonempty_string_field (key : string) (participant : json) : option string :=
  match field key participant with
  | Some (JStr s) => if falsy s then None else Some s
  | _ => None
  end.

Definition sanitizeParticipant (now : string) (participant : json)
  : option (option PersistedParticipant) :=
  if negb (is_object participant) then Some None
  else
    match text_field "token" participant with
    | None => None
    | Some token =>
        match text_field "name" participant with
        | None => None
        | Some name =>
            if falsy token || falsy name then Some None
            else
              Some (Some
                {| Persisted.token := token;
                   Persisted.name := name;
                   Persisted.registeredAt :=
                     default now (nonempty_string_field "registeredAt" participant);
                   Persisted.assignmentToken :=
                     nonempty_string_field "assignmentToken" participant;
                   Persisted.ipAddress :=
                     match field "ipAddress" participant with
                     | Some (JStr s) =>
                         if falsy (trim s) then None else Some (slice0 128 (trim s))
                     | _ => None
                     end |})
        end
    end.

(** [array.map(callback)]: the callback runs on every element in order and
    the first exception ends the whole call. *)
Fixpoint map_throwing {A B} (f : A -> option B) (l : list A) : option (list B) :=
  match l with
  | [] => Some []
  | x :: rest =>
      match f x with
      | None => None
      | Some y =>
          match map_throwing f rest with
          | None => None
          | Some ys => Some (y :: ys)
          end
      end
  end.

(** [.filter((item) => item !== null)] *)
Definition filter_not_null {A} (l : list (option A)) : list A :=
  omap (fun item => item) l.

(** The object literal [sanitized], for a [parsed] that passed the format
    check and whose property [participants] is the array [records]. *)
Definition sanitize (now : string) (parsed : json) (records : list json)
  : option PersistedState :=
  match map_throwing (sanitizeParticipant now) records with
  | None => None
  | Some mapped =>
      Some {| Persisted.participants := filter_not_null mapped;
              Persisted.assignmentsReady := js_Boolean (field "assignmentsReady" parsed);
              Persisted.lastShuffledAt := nonempty_string_field "lastShuffledAt" parsed;
              Persisted.registrationOpen :=
                match field "registrationOpen" parsed with
                | Some (JBool b) => b
                | _ => true
                end |}
  end.

(** ** Files

    Of a file's text the program uses only what [JSON.parse] makes of it:
    a value, or the [SyntaxError] of a text that is not JSON.
    [JSON.stringify] writes the text that parses back to the value it was
    given. *)
Inductive file_text :=
| NotJson
| JsonText (value : json).

Inductive fs_call :=
| FsWriteFile (path : string) (data : file_text)
| FsRename (src dst : string)
| FsRm (path : string).

(** The files, and the calls made so far that write (oldest first). *)
Record FileSystem := mkFileSystem {
  files : gmap string file_text;
  calls : list fs_call;
}.

(** How [writeFile] ends: it succeeds, or it fails having left nothing or
    some text at the path. *)
Inductive write_outcome :=
| WriteOk
| WriteFails (left_behind : option file_text).

(** What the platform decides during one [persistState]. *)
Record Io := mkIo {
  temp_uuid : string;           (* [crypto.randomUUID()] for the temporary path *)
  write_result : write_outcome; (* [writeFile(tempPath, payload)] *)
  rename_ok : bool;             (* [rename(tempPath, PARTICIPANTS_FILE)] *)
  rm_ok : bool;                 (* [rm(tempPath, { force: true })] *)
}.

Definition writeFile (path : string) (data : file_text) (o : write_outcome)
           (fs : FileSystem) : FileSystem * bool :=
  let log := (calls fs ++ [FsWriteFile path data])%list in
  match o with
  | WriteOk => ({| files := <[path := data]> (files fs); calls := log |}, true)
  | WriteFails None => ({| files := files fs; calls := log |}, false)
  | WriteFails (Some partial) =>
      ({| files := <[path := partial]> (files fs); calls := log |}, false)
  end.

(** [rename] replaces the destination in one step or fails and changes
    nothing; a source that does not exist is a failure. *)
Definition rename (src dst : string) (ok : bool) (fs : FileSystem) : FileSystem * bool :=
  let log := (calls fs ++ [FsRename src dst])%list in
  match files fs !! src with
  | Some data =>
      if ok then ({| files := <[dst := data]> (delete src (files fs)); calls := log |}, true)
      else ({| files := files fs; calls := log |}, false)
  | None => ({| files := files fs; calls := log |}, false)
  end.

(** [rm(path, { force: true }).catch(() => {})] *)
Definition rm_force (path : string) (ok : bool) (fs : FileSystem) : FileSystem :=
  {| files := if ok then delete path (files fs) else files fs;
     calls := (calls fs ++ [FsRm path])%list |}.

Definition tempPath (uuid : string) : string :=
  PARTICIPANTS_FILE ++ "." ++ uuid ++ ".tmp".

(** [persistState]: the snapshot is taken at the call; [writeOp] runs once
    the writes queued before it have settled, whether they failed or not
    ([persistQueue.then(writeOp, writeOp)]).  The handlers below run one
    after the other and each awaits its own write, so the queue is settled
    at every call and [writeOp] runs next.  The boolean is [true] when the
    returned promise fulfils and [false] when it rejects. *)
Definition persistState (st : State) (io : Io) (fs : FileSystem) : FileSystem * bool :=
  let snapshot := captureState st in
  let payload := JsonText (stringifyState snapshot) in
  let tmp := tempPath (temp_uuid io) in
  match writeFile tmp payload (write_result io) fs with
  | (fs1, true) =>
      match rename tmp PARTICIPANTS_FILE (rename_ok io) fs1 with
      | (fs2, true) => (fs2, true)
      | (fs2, false) => (rm_force tmp (rm_ok io) fs2, false)
      end
  | (fs1, false) => (rm_force tmp (rm_ok io) fs1, false)
  end.

(** [loadPersistedState], run at startup on the initial variables.
    [Fatal] is the exception that makes the process exit.  [read_error] is
    the code of the error [readFile] fails with for a file that exists, if
    it does. *)
Inductive startup :=
| Started (st : State)
| Fatal (message : string).

Definition loadPersistedState (now : string) (read_error : option string)
           (fs : FileSystem) (st : State) : startup :=
  match files fs !! PARTICIPANTS_FILE with
  | None => Started st (* ENOENT *)
  | Some contents =>
      match read_error with
      | Some code => if String.eqb code "ENOENT" then Started st else Fatal code
      | None =>
          match contents with
          | NotJson => Fatal "SyntaxError"
          | JsonText parsed =>
              match is_object parsed, field "participants" parsed with
              | true, Some (JArr records) =>
                  match sanitize now parsed records with
                  | Some sanitized => Started (restoreState sanitized)
                  | None => Fatal "TypeError"
                  end
              | _, _ => Fatal "Invalid participants store format."
              end
          end
      end
  end.

End Json.

Arguments json number : clear implicits.
Arguments file_text number : clear implicits.
Arguments fs_call number : clear implicits.
Arguments FileSystem number : clear implicits.
Arguments startup : clear implicits.

(** ** Token generation *)

(** [createUniqueToken]: [draws] are the texts the successive calls of
    [crypto.randomUUID()] return.  The loop ends at the first token that
    is not a key of the map; [None] means it did not end within [draws]. *)
Fixpoint createUniqueToken (m : JsMap.t Participant) (draws : list string) : option string :=
  match draws with
  | [] => None
  | uuid :: rest =>
      let token := randomToken uuid in
      if JsMap.has token m then createUniqueToken m rest else Some token
  end.

(** ** The shuffle *)

Inductive completion (A : Type) :=
| Normal (value : A)
| Throw (message : string).
Arguments Normal {A} value.
Arguments Throw {A} message.

(** [Math.floor(r * bound)] for the value [r] that [Math.random()]
    returned, a number in [0, 1).  The product is exact here and rounded in
    JavaScript; either way the index is below [bound], and nothing proved
    below depends on which index is drawn. *)
Definition random_index (r : Q) (bound : nat) : nat :=
  Z.to_nat (Qfloor (r * inject_Z (Z.of_nat bound))).

(** [temp = a[i]; a[i] = a[j]; a[j] = temp].  With an index outside the
    array JavaScript would store [undefined]; the loop below never does
    that ([j <= i < a.length]), and the model leaves the array alone. *)
Definition swap (i j : nat) (a : list string) : list string :=
  match a !! i, a !! j with
  | Some ai, Some aj => <[j := ai]> (<[i := aj]> a)
  | _, _ => a
  end.

(** [for (let i = shuffled.length - 1; i > 0; i--)], entered with the
    current [i]; [Math_random call] is the result of the next call of
    [Math.random()]. *)
Fixpoint fisher_yates (Math_random : nat -> Q) (call : nat) (i : nat)
         (shuffled : list string) : list string :=
  match i with
  | 0 => shuffled
  | S i' =>
      let j := random_index (Math_random call) (i + 1) in
      fisher_yates Math_random (S call) i' (swap i j shuffled)
  end.

(** [l.forEach((x, index) => ...)] threading the state the callback
    mutates; [forEach_from] is the iteration from position [index] on. *)
Fixpoint forEach_from {A St} (f : A -> nat -> St -> St) (index : nat) (l : list A) (s : St)
  : St :=
  match l with
  | [] => s
  | x :: rest => forEach_from f (S index) rest (f x index s)
  end.

Definition forEach_indexed {A St} (f : A -> nat -> St -> St) (l : list A) (s : St) : St :=
  forEach_from f 0 l s.

Definition assign_receivers (shuffled : list string) (m : JsMap.t Participant)
  : JsMap.t Participant :=
  forEach_indexed
    (fun giverToken index m =>
       let receiverToken := shuffled !! ((index + 1) mod length shuffled) in
       JsMap.update giverToken (set_assignmentToken receiverToken) m)
    shuffled m.

Definition shuffleAssignments (Math_random : nat -> Q) (now : string) (st : State)
  : completion State :=
  let tokens := JsMap.keys (participants st) in
  if length tokens <? 2 then Throw "At least two participants are required to shuffle."
  else
    let shuffled := fisher_yates Math_random 0 (length tokens - 1) tokens in
    Normal {| participants := assign_receivers shuffled (participants st);
              assignmentsReady := true;
              lastShuffledAt := Some now;
              registrationOpen := registrationOpen st |}.

(** ** Responses *)

(** The bodies the three handlers answer with: a plain text; the JSON
    objects [{ token, name, assignmentsReady }], [{ success: false,
    message }], [{ success: true, participantCount, shuffledAt }] and
    [{ success: true, participantCount, registrationOpen }]; and the error
    page of the server for an exception the handler does not catch. *)
Inductive Body :=
| Text (message : string)
| Registered (token name : string) (assignmentsReady : bool)
| Failure (message : string)
| Shuffled (participantCount : nat) (shuffledAt : option string)
| Reopened (participantCount : nat) (registrationOpen : bool)
| Uncaught (error : string).

Record Response := mkResponse { status : nat; body : Body }.

(** ** The handlers *)

Section Handlers.

Context {number : Type} `{!JsNumber number}.

(** What the platform decides during one request. *)
Record Platform := mkPlatform {
  uuids : list string;      (* [crypto.randomUUID()] in [createUniqueToken] *)
  Math_random : nat -> Q;   (* the successive results of [Math.random()] *)
  now : string;             (* [new Date().toISOString()] *)
  io : Io (number := number);
}.

(** [body]: what [req.json()] resolves to, [None] when it rejects.
    [ip]: what [getRequestIp(req)] returns. *)
Record Request := mkRequest {
  json_body : option (json number);
  ip : option string;
}.

Record World := mkWorld {
  memory : State;
  disk : FileSystem number;
}.

(** One run of a handler: the variables as they stand at each [await] of
    the handler, where other requests can run, in order; the world when
    the handler returns; the response. *)
Record Run := mkRun {
  seen : list State;
  final : World;
  reply : Response;
}.

Definition extractPasswordFromRequest (req : Request) : option string :=
  match json_body req with
  | Some body =>
      if is_object body then
        match field "password" body with
        | Some (JStr value) => if falsy (trim value) then None else Some (trim value)
        | _ => None
        end
      else None
  | None => None
  end.

Definition authorizeAdmin (config : AppConfig) (req : Request) : bool :=
  match extractPasswordFromRequest req with
  | Some password => String.eqb password (adminPassword config)
  | None => false
  end.

(** [typeof body === "object" && body && "name" in body
      ? String(body.name).trim() : ""] *)
Definition requested_name (body : json number) : option string :=
  if is_object body then
    match field "name" body with
    | Some v => trim <$> js_String v
    | None => Some ""
    end
  else Some "".

(** Lines 354 to 359 of the register handler; nothing from the check of
    the name to the call of [persistState] awaits. *)
Definition register_mutation (token name registeredAt : string) (ipAddress : option string)
           (st : State) : State :=
  let inserted :=
    JsMap.set token
      {| token := token; name := name; assignmentToken := None;
         registeredAt := registeredAt; ipAddress := ipAddress |}
      (participants st) in
  {| participants := JsMap.for_each_value (set_assignmentToken None) inserted;
     assignmentsReady := false;
     lastShuffledAt := None;
     registrationOpen := registrationOpen st |}.

(** [POST /api/register].  [None]: the loop of [createUniqueToken] did not
    end within the draws supplied. *)
Definition register (req : Request) (pf : Platform) (w : World) : option Run :=
  let st := memory w in
  if negb (registrationOpen st) then
    Some {| seen := []; final := w;
            reply := {| status := 403;
                        body := Text "Registration is closed. Please contact the organizer." |} |}
  else
    (* await req.json() *)
    match json_body req with
    | None =>
        Some {| seen := [st]; final := w;
                reply := {| status := 400; body := Text "Invalid JSON" |} |}
    | Some body =>
        match requested_name body with
        | None =>
            Some {| seen := [st]; final := w;
                    reply := {| status := 500; body := Uncaught "TypeError" |} |}
        | Some name =>
            if falsy name then
              Some {| seen := [st]; final := w;
                      reply := {| status := 400; body := Text "Name is required" |} |}
            else if 64 <? String.length name then
              Some {| seen := [st]; final := w;
                      reply := {| status := 400;
                                  body := Text "Name must be 64 characters or fewer" |} |}
            else
              let previousState := captureState st in
              match createUniqueToken (participants st) (uuids pf) with
              | None => None
              | Some token =>
                  let st1 := register_mutation token name (now pf) (ip req) st in
                  (* await persistState() *)
                  match persistState st1 (io pf) (disk w) with
                  | (disk1, true) =>
                      Some {| seen := [st; st1];
                              final := {| memory := st1; disk := disk1 |};
                              reply := {| status := 201;
                                          body := Registered token name (assignmentsReady st1) |} |}
                  | (disk1, false) =>
                      Some {| seen := [st; st1];
                              final := {| memory := restoreState previousState; disk := disk1 |};
                              reply := {| status := 500;
                                          body := Text "Unable to save registration. Try again." |} |}
                  end
              end
        end
    end.

Definition close_registration (st : State) : State :=
  {| participants := participants st;
     assignmentsReady := assignmentsReady st;
     lastShuffledAt := lastShuffledAt st;
     registrationOpen := false |}.

(** [POST /api/shuffle] *)
Definition shuffle (config : AppConfig) (req : Request) (pf : Platform) (w : World) : Run :=
  let st := memory w in
  (* await authorizeAdmin(req) *)
  if negb (authorizeAdmin config req) then
    {| seen := [st]; final := w;
       reply := {| status := 401; body := Failure "Invalid admin password." |} |}
  else
    let previousState := captureState st in
    match shuffleAssignments (Math_random pf) (now pf) st with
    | Throw message =>
        {| seen := [st]; final := w;
           reply := {| status := 400; body := Failure message |} |}
    | Normal shuffled =>
        let st1 := close_registration shuffled in
        (* await persistState() *)
        match persistState st1 (io pf) (disk w) with
        | (disk1, true) =>
            {| seen := [st; st1];
               final := {| memory := st1; disk := disk1 |};
               reply := {| status := 200;
                           body := Shuffled (JsMap.size (participants st1))
                                            (lastShuffledAt st1) |} |}
        | (disk1, false) =>
            {| seen := [st; st1];
               final := {| memory := restoreState previousState; disk := disk1 |};
               reply := {| status := 500; body := Failure "Unable to save shuffle results." |} |}
        end
    end.

(** Lines 503 to 508 of the reopen handler. *)
Definition reopen_mutation (st : State) : State :=
  {| participants := JsMap.for_each_value (set_assignmentToken None) (participants st);
     assignmentsReady := false;
     lastShuffledAt := None;
     registrationOpen := true |}.

(** [POST /api/registration/reopen] *)
Definition reopen (config : AppConfig) (req : Request) (pf : Platform) (w : World) : Run :=
  let st := memory w in
  (* await authorizeAdmin(req) *)
  if negb (authorizeAdmin config req) then
    {| seen := [st]; final := w;
       reply := {| status := 401; body := Failure "Invalid admin password." |} |}
  else
    let previousState := captureState st in
    let st1 := reopen_mutation st in
    (* await persistState() *)
    match persistState st1 (io pf) (disk w) with
    | (disk1, true) =>
        {| seen := [st; st1];
           final := {| memory := st1; disk := disk1 |};
           reply := {| status := 200;
                       body := Reopened (JsMap.size (participants st1))
                                        (registrationOpen st1) |} |}
    | (disk1, false) =>
        {| seen := [st; st1];
           final := {| memory := restoreState previousState; disk := disk1 |};
           reply := {| status := 500; body := Failure "Unable to reopen registration." |} |}
    end.

End Handlers.

Arguments Platform number : clear implicits.
Arguments Request number : clear implicits.
Arguments World number : clear implicits.
Arguments Run number : clear implicits.

(** ** Notions used to state the properties *)

(** Every entry of the registry is stored under its own token: both
    [participants.set] calls of the program pass the token of the record
    they store as the key. *)
Definition keyed (m : JsMap.t Participant) : Prop :=
  Forall (fun e => token (snd e) = fst e) m.

(** A registry as the program builds it: a [Map] has each key once, and
    entries are keyed by their token. *)
Definition registry_ok (m : JsMap.t Participant) : Prop :=
  NoDup (JsMap.keys m) /\ keyed m.

(** The participant [t] gives to: the [assignmentToken] of the participant
    with token [t]. *)
Definition receiver (st : State) (t : string) : option string :=
  match JsMap.get t (participants st) with
  | Some p => assignmentToken p
  | None => None
  end.

(** The participant reached from [t] after [k] assignment links. *)
Fixpoint follow (st : State) (k : nat) (t : string) : option string :=
  match k with
  | 0 => Some t
  | S k' =>
      match follow st k' t with
      | Some t' => receiver st t'
      | None => None
      end
  end.

(** The participants met on the first [n] stops of the walk from [t],
    [t] itself first. *)
Definition walk (st : State) (n : nat) (t : string) : list (option string) :=
  (fun k => follow st k t) <$> seq 0 n.

Definition all_unassigned (st : State) : Prop :=
  Forall (fun p => assignmentToken p = None) (JsMap.values (participants st)).

(** What a participant keeps through a round trip, and what a state
    shows: the participants in registry order and the three flags. *)
Definition participant_view (p : Participant) : string * string * option string * string :=
  (token p, name p, assignmentToken p, registeredAt p).

Definition state_view (st : State)
  : list (string * string * option string * string) * bool * bool * option string :=
  (participant_view <$> JsMap.values (participants st),
   registrationOpen st, assignmentsReady st, lastShuffledAt st).

(** What [loadPersistedState] makes of a stored [ipAddress]. *)
Definition normalize_ip (p : Participant) : Participant :=
  {| token := token p; name := name p; assignmentToken := assignmentToken p;
     registeredAt := registeredAt p;
     ipAddress :=
       match ipAddress p with
       | Some s => if falsy (trim s) then None else Some (slice0 128 (trim s))
       | None => None
       end |}.

(** A state whose texts are the kind the program itself produces: tokens,
    names and timestamps are not empty. *)
Definition storable (st : State) : Prop :=
  registry_ok (participants st)
  /\ Forall (fun p => token p <> "" /\ name p <> "" /\ registeredAt p <> ""
                      /\ assignmentToken p <> Some "")
            (JsMap.values (participants st))
  /\ lastShuffledAt st <> Some "".

Definition normalize_ips (st : State) : State :=
  {| participants := JsMap.for_each_value normalize_ip (participants st);
     assignmentsReady := assignmentsReady st;
     lastShuffledAt := lastShuffledAt st;
     registrationOpen := registrationOpen st |}.

Definition flags_exclusive (st : State) : Prop :=
  ~ (registrationOpen st = true /\ assignmentsReady st = true).

(** Integers printed in decimal, as [String] prints the integers of
    magnitude below 10^21; the number type of the examples. *)
#[export] Instance decimal_integers : JsNumber Z := {|
  Number_toString z := NilZero.string_of_int (Z.to_int z);
  Number_toBoolean z := negb (Z.eqb z 0);
|}.

Section Reachability.

Context {number : Type} `{!JsNumber number}.

(** The loader as the spec words it: a record is kept when it is an
    object whose token and name are not empty, and a kept record is
    stored with its optional fields defaulted.  The token and the name
    are read as the loader reads them: the empty text for a property
    that is absent, [String] of the value otherwise. *)
Definition coerced (key : string) (record : json number) : string :=
  default "" (text_field key record).

Definition spec_keeps (record : json number) : bool :=
  is_object record
  && negb (falsy (coerced "token" record))
  && negb (falsy (coerced "name" record)).

Definition spec_stored (now : string) (record : json number) : PersistedParticipant :=
  {| Persisted.token := coerced "token" record;
     Persisted.name := coerced "name" record;
     Persisted.registeredAt :=
       match field "registeredAt" record with
       | Some (JStr s) => if falsy s then now else s
       | _ => now
       end;
     Persisted.assignmentToken :=
       match field "assignmentToken" record with
       | Some (JStr s) => if falsy s then None else Some s
       | _ => None
       end;
     Persisted.ipAddress :=
       match field "ipAddress" record with
       | Some (JStr s) => if falsy (trim s) then None else Some (slice0 128 (trim s))
       | _ => None
       end |}.

Definition spec_participants (now : string) (records : list (json number))
  : list PersistedParticipant :=
  spec_stored now <$> List.filter spec_keeps records.

(** [String] does not throw on the record's token and name. *)
Definition coercible (record : json number) : Prop :=
  is_Some (text_field "token" record) /\ is_Some (text_field "name" record).

(** The platform behaves: a timestamp is not the empty text and a UUID
    has a character that is not a hyphen. *)
Definition platform_ok (pf : Platform number) : Prop :=
  now pf <> "" /\ Forall (fun uuid => randomToken uuid <> "") (uuids pf).

(** [persistState] rejects exactly when one of its two steps fails. *)
Definition persist_fails (o : Io (number := number)) : Prop :=
  write_result o <> WriteOk \/ rename_ok o = false.

(** The run ended as a failed write must: the variables are those of
    [w] again, so is their snapshot, the store file is the one [w] had,
    and the answer is a server error. *)
Definition rolled_back (w : World number) (run : Run number) : Prop :=
  memory (final run) = memory w
  /\ captureState (memory (final run)) = captureState (memory w)
  /\ files (disk (final run)) !! PARTICIPANTS_FILE = files (disk w) !! PARTICIPANTS_FILE
  /\ status (reply run) = 500.

(** The run called the file system, that is, it got to [persistState]. *)
Definition wrote (w : World number) (run : Run number) : Prop :=
  calls (disk (final run)) <> calls (disk w).

(** The worlds the server can be in: the one startup leaves (with or
    without a store file) and those the three mutating handlers lead to,
    whatever the requests, draws and file-system failures. *)
Inductive reachable (config : AppConfig) : World number -> Prop :=
| reach_start now read_error fs st :
    now <> "" ->
    loadPersistedState now read_error fs initial_state = Started st ->
    reachable config {| memory := st; disk := fs |}
| reach_register req pf w run :
    reachable config w -> platform_ok pf ->
    register req pf w = Some run ->
    reachable config (final run)
| reach_shuffle req pf w :
    reachable config w -> platform_ok pf ->
    reachable config (final (shuffle config req pf w))
| reach_reopen req pf w :
    reachable config w -> platform_ok pf ->
    reachable config (final (reopen config req pf w)).

End Reachability.

(** ** The rest of the server

    The functions of [src/index.ts] that the mutating handlers do not go
    through: the configuration loader, the read-only routes and the
    extraction of the client address. *)

(** *** [loadConfig] *)

(** The four errors [loadConfig] throws, in the order of its checks. *)
Inductive config_error :=
| ConfigMissing          (* [Missing config.json. ...] *)
| ConfigUnparseable      (* [Unable to parse config.json: ...] *)
| PasswordRequired       (* [adminPassword is required in config.json.] *)
| PasswordNotText.       (* [adminPassword must be a non-empty string ...] *)

Section Config.

Context {number : Type} `{!JsNumber number}.

Definition loadConfig (fs : FileSystem number) : config_error + AppConfig :=
  match files fs !! CONFIG_FILE with
  | None => inl ConfigMissing
  | Some NotJson => inl ConfigUnparseable
  | Some (JsonText raw) =>
      if negb (is_object raw) then inl PasswordRequired
      else
        match field "adminPassword" raw with
        | None => inl PasswordRequired
        | Some (JStr adminPassword) =>
            if falsy (trim adminPassword) then inl PasswordNotText
            else inr {| adminPassword := trim adminPassword |}
        | Some _ => inl PasswordNotText
        end
  end.

End Config.

(** *** The read-only routes *)

Module Page.

(** The body of [GET /api/participant/:token]. *)
Record t := mk {
  token : string;
  name : string;
  assignmentsReady : bool;
  assignedName : option string;
  participantCount : nat;
  shuffledAt : option string;
}.

End Page.


Module Status.

(** The body of [GET /api/status]. *)
Record t := mk {
  registrationOpen : bool;
  assignmentsReady : bool;
  participantCount : nat;
  shuffledAt : option string;
}.

End Status.

Definition status_page (st : State) : Status.t :=
  {| Status.registrationOpen := registrationOpen st;
     Status.assignmentsReady := assignmentsReady st;
     Status.participantCount := JsMap.size (participants st);
     Status.shuffledAt := lastShuffledAt st |}.

Module Listing.

(** An entry of the list [POST /api/participants] answers with. *)
Record entry := mkEntry {
  token : string;
  name : string;
  registeredAt : string;
  hasAssignment : bool;
  ipAddress : option string;
}.

(** The body of the answer. *)
Record t := mk {
  participants : list entry;
  participantCount : nat;
  assignmentsReady : bool;
  shuffledAt : option string;
  registrationOpen : bool;
}.

End Listing.

(** The callback of [.map] in the listing: [hasAssignment] is
    [Boolean(assignmentToken)]. *)
Definition listing_entry (p : Participant) : Listing.entry :=
  {| Listing.token := token p;
     Listing.name := name p;
     Listing.registeredAt := registeredAt p;
     Listing.hasAssignment :=
       match assignmentToken p with
       | Some t => negb (falsy t)
       | None => false
       end;
     Listing.ipAddress := ipAddress p |}.

Section Sorting.

(** [a.localeCompare(b)]: negative, zero or positive.  The collation is
    the host's. *)
Variable localeCompare : string -> string -> Z.

(** [array.sort((a, b) => a.registeredAt.localeCompare(b.registeredAt))].
    The sort is stable: an entry stays behind the entries before it that
    compare equal to it. *)
Fixpoint insert_sorted (x : Listing.entry) (sorted : list Listing.entry)
  : list Listing.entry :=
  match sorted with
  | [] => [x]
  | y :: rest =>
      if (localeCompare (Listing.registeredAt x) (Listing.registeredAt y) <=? 0)%Z
      then x :: y :: rest
      else y :: insert_sorted x rest
  end.

Fixpoint sort_by_registeredAt (l : list Listing.entry) : list Listing.entry :=
  match l with
  | [] => []
  | x :: rest => insert_sorted x (sort_by_registeredAt rest)
  end.

(** The body [POST /api/participants] answers an authorised request
    with. *)
Definition listing (st : State) : Listing.t :=
  {| Listing.participants :=
       sort_by_registeredAt (listing_entry <$> JsMap.values (participants st));
     Listing.participantCount := JsMap.size (participants st);
     Listing.assignmentsReady := assignmentsReady st;
     Listing.shuffledAt := lastShuffledAt st;
     Listing.registrationOpen := registrationOpen st |}.

End Sorting.

Section ListingHandler.

Context {number : Type} `{!JsNumber number}.

(** [POST /api/participants]; [None] is the 401 answer. *)
Definition participants_listing (localeCompare : string -> string -> Z)
           (config : AppConfig) (req : Request number) (st : State) : option Listing.t :=
  if authorizeAdmin config req then Some (listing localeCompare st) else None.

End ListingHandler.

(** *** The client address *)

(** The double quote. *)
Definition quote : ascii := ascii_of_nat 34.

(** [s.indexOf(c)] and [s.lastIndexOf(c)] for a single character, [None]
    being [-1]. *)
Fixpoint indexOf (c : ascii) (s : string) : option nat :=
  match s with
  | EmptyString => None
  | String a rest => if Ascii.eqb a c then Some 0 else S <$> indexOf c rest
  end.

Fixpoint lastIndexOf (c : ascii) (s : string) : option nat :=
  match s with
  | EmptyString => None
  | String a rest =>
      match lastIndexOf c rest with
      | Some i => Some (S i)
      | None => if Ascii.eqb a c then Some 0 else None
      end
  end.

(** [s.split(c)] for a single character. *)
Fixpoint split (c : ascii) (s : string) : list string :=
  match s with
  | EmptyString => [EmptyString]
  | String a rest =>
      if Ascii.eqb a c then EmptyString :: split c rest
      else
        match split c rest with
        | piece :: pieces => String a piece :: pieces
        | [] => [String a EmptyString]
        end
  end.

(** [s.slice(from)] and [s.slice(from, to)] for indices inside [s]. *)
Definition slice_from (from : nat) (s : string) : string :=
  substring from (String.length s - from) s.

Definition slice (from to : nat) (s : string) : string :=
  substring from (to - from) s.

(** The text without a double quote at its end. *)
Fixpoint strip_final_quote (s : string) : string :=
  match s with
  | EmptyString => EmptyString
  | String c EmptyString => if Ascii.eqb c quote then EmptyString else s
  | String c rest => String c (strip_final_quote rest)
  end.

(** [s.replace(/^"|"$/g, "")]: a quote that opens the text and a quote
    that ends it are removed. *)
Definition strip_quotes (s : string) : string :=
  match s with
  | String c rest => if Ascii.eqb c quote then strip_final_quote rest else strip_final_quote s
  | EmptyString => EmptyString
  end.

Definition is_digit (c : ascii) : bool :=
  let n := nat_of_ascii c in (48 <=? n) && (n <=? 57).

(** [/^\d+$/.test(s)] *)
Fixpoint all_digits (s : string) : bool :=
  match s with
  | EmptyString => false
  | String c EmptyString => is_digit c
  | String c rest => is_digit c && all_digits rest
  end.

(** [s.startsWith(c)] for a single character. *)
Definition startsWith (c : ascii) (s : string) : bool :=
  match s with
  | String a _ => Ascii.eqb a c
  | EmptyString => false
  end.

(** Lines 64 to 73 of [normalizeIpCandidate]: a text with exactly one
    colon followed by digits only loses the colon and the digits. *)
Definition strip_port (firstEntry : string) : option string :=
  match lastIndexOf ":" firstEntry, indexOf ":" firstEntry with
  | Some lastColon, Some firstColon =>
      if (firstColon =? lastColon) && all_digits (slice_from (lastColon + 1) firstEntry)
      then
        let withoutPort := trim (slice0 lastColon firstEntry) in
        if falsy withoutPort then None else Some (slice0 128 withoutPort)
      else Some (slice0 128 firstEntry)
  | _, _ => Some (slice0 128 firstEntry)
  end.

Definition normalizeIpCandidate (value : option string) : option string :=
  match value with
  | None => None
  | Some value =>
      if falsy value then None
      else
        let trimmed := strip_quotes (trim value) in
        if falsy trimmed then None
        else
          let firstEntry := trim (hd EmptyString (split "," trimmed)) in
          if falsy firstEntry then None
          else
            (* firstEntry.startsWith("[") && firstEntry.includes("]") *)
            match (if startsWith "[" firstEntry then indexOf "]" firstEntry else None) with
            | Some closingIndex =>
                let inside := trim (slice 1 closingIndex firstEntry) in
                if falsy inside then None else Some (slice0 128 inside)
            | None => strip_port firstEntry
            end
  end.

(** The characters that match [f], [o] and [r] under the flag [i]. *)
Definition is_letter (lower upper c : ascii) : bool :=
  Ascii.eqb c lower || Ascii.eqb c upper.

(** The maximal run of characters other than [;] at the start of [s]. *)
Fixpoint until_semicolon (s : string) : string :=
  match s with
  | EmptyString => EmptyString
  | String c rest => if Ascii.eqb c ";" then EmptyString else String c (until_semicolon rest)
  end.

(** [entry.match(/for=([^;]+)/i)]: the first group of the leftmost match,
    [None] when there is no match. *)
Fixpoint match_for (entry : string) : option string :=
  match entry with
  | EmptyString => None
  | String c rest =>
      match entry with
      | String f (String o (String r (String e after))) =>
          if is_letter "f" "F" f && is_letter "o" "O" o && is_letter "r" "R" r
             && Ascii.eqb e "="
             && negb (falsy (until_semicolon after))
          then Some (until_semicolon after)
          else match_for rest
      | _ => match_for rest
      end
  end.

(** The loop of [parseForwardedHeader] over the entries. *)
Fixpoint first_forwarded (entries : list string) : option string :=
  match entries with
  | [] => None
  | entry :: rest =>
      match match_for entry with
      | Some group =>
          match normalizeIpCandidate (Some group) with
          | Some candidate => Some candidate
          | None => first_forwarded rest
          end
      | None => first_forwarded rest
      end
  end.

Definition parseForwardedHeader (headerValue : option string) : option string :=
  match headerValue with
  | None => None
  | Some headerValue =>
      if falsy headerValue then None else first_forwarded (split "," headerValue)
  end.

Definition headersToCheck : list string :=
  [ "x-forwarded-for"; "x-real-ip"; "cf-connecting-ip"; "x-client-ip";
    "true-client-ip"; "fastly-client-ip" ].

(** [getRequestIp], given [req.headers.get]. *)
Definition getRequestIp (get : string -> option string) : option string :=
  let fix check (headers : list string) : option string :=
    match headers with
    | [] => parseForwardedHeader (get "forwarded")
    | header :: rest =>
        match normalizeIpCandidate (get header) with
        | Some candidate => Some candidate
        | None => check rest
        end
    end in
  check headersToCheck.

(** *** Notions used to state the further properties *)

(** Every character of the text satisfies [p]. *)
Fixpoint every (p : ascii -> bool) (s : string) : bool :=
  match s with
  | EmptyString => true
  | String c rest => p c && every p rest
  end.

(** A character that is neither white space, nor a comma, nor a double
    quote; [host_char] also excludes the colon and the brackets. *)
Definition plain_char (c : ascii) : bool :=
  negb (is_whitespace c) && negb (Ascii.eqb c ",") && negb (Ascii.eqb c quote).

Definition host_char (c : ascii) : bool :=
  plain_char c && negb (Ascii.eqb c ":") && negb (Ascii.eqb c "[")
  && negb (Ascii.eqb c "]").

(** What [normalizeIpCandidate] can return: a text that is not empty, of
    at most 128 code units, and trimmed unless it was cut at 128. *)
Definition address_like (s : string) : Prop :=
  s <> EmptyString /\ String.length s <= 128 /\ (String.length s < 128 -> trim s = s).



Section FurtherNotions.

Context {number : Type} `{!JsNumber number}.

(** The store file holds the text of the snapshot of the variables. *)
Definition in_sync (w : World number) : Prop :=
  files (disk w) !! PARTICIPANTS_FILE
  = Some (JsonText (stringifyState (captureState (memory w)))).

(** The call is one of the three [persistState] makes with the temporary
    path [tmp]: write it, rename it over the store file, remove it. *)
Definition temp_call (tmp : string) (c : fs_call number) : Prop :=
  match c with
  | FsWriteFile path _ => path = tmp
  | FsRename src dst => src = tmp /\ dst = PARTICIPANTS_FILE
  | FsRm path => path = tmp
  end.

End FurtherNotions.

(** ** Example data

    Concrete requests, platforms and worlds on which the properties below
    are exercised; numbers are the decimal integers. *)

Definition example_config : AppConfig := {| adminPassword := "rhodes-island" |}.

Definition example_admin : Request Z :=
  {| json_body := Some (JObj [("password", JStr " rhodes-island ")]); ip := None |}.

Definition example_join : Request Z :=
  {| json_body := Some (JObj [("name", JStr "  Doctor ")]); ip := Some "203.0.113.7" |}.

(** A request whose name [String] cannot turn into text. *)
Definition example_unnameable : Request Z :=
  {| json_body := Some (JObj [("name", JObj [("toString", JNum 1%Z)])]); ip := None |}.

Definition example_io_ok : Io (number := Z) :=
  {| temp_uuid := "6fa459ea-ee8a-3ca4-894e-db77e160355e";
     write_result := WriteOk; rename_ok := true; rm_ok := true |}.

Definition example_io_failing : Io (number := Z) :=
  {| temp_uuid := "6fa459ea-ee8a-3ca4-894e-db77e160355e";
     write_result := WriteOk; rename_ok := false; rm_ok := true |}.

Definition example_platform (o : Io (number := Z)) : Platform Z :=
  {| uuids := ["1b4e28ba-2fa1-11d2-883f-0016d3cca427"];
     Math_random := fun call => match call with 0 => 1 # 2 | _ => 9 # 10 end;
     now := "2024-12-01T10:00:00.000Z";
     io := o |}.

Definition example_participant (t n : string) (receiver : option string) : Participant :=
  {| token := t; name := n; assignmentToken := receiver;
     registeredAt := "2023-11-30T09:00:00.000Z"; ipAddress := None |}.

Definition example_disk : FileSystem Z := {| files := ∅; calls := [] |}.

(** Three participants, registration open, nothing assigned. *)
Definition example_world : World Z :=
  {| memory :=
       {| participants := [("a1", example_participant "a1" "Amiya" None);
                           ("b2", example_participant "b2" "Exusiai" None);
                           ("c3", example_participant "c3" "Texas" None)];
          assignmentsReady := false; lastShuffledAt := None; registrationOpen := true |};
     disk := example_disk |}.

(** One participant only. *)
Definition example_solo_world : World Z :=
  {| memory :=
       {| participants := [("a1", example_participant "a1" "Solo" None)];
          assignmentsReady := false; lastShuffledAt := None; registrationOpen := true |};
     disk := example_disk |}.

(** A store file written before the [registrationOpen] flag existed: two
    participants assigned to each other, [assignmentsReady] true. *)
Definition example_old_store : json Z :=
  JObj [ ("assignmentsReady", JBool true);
         ("lastShuffledAt", JStr "2023-12-01T10:00:00.000Z");
         ("participants",
          JArr [ JObj [ ("token", JStr "a1"); ("name", JStr "Amiya");
                        ("assignmentToken", JStr "b2");
                        ("registeredAt", JStr "2023-11-30T09:00:00.000Z") ];
                 JObj [ ("token", JStr "b2"); ("name", JStr "Exusiai");
                        ("assignmentToken", JStr "a1");
                        ("registeredAt", JStr "2023-11-30T09:00:00.000Z") ] ]) ].

Definition example_old_disk : FileSystem Z :=
  {| files := {[ PARTICIPANTS_FILE := JsonText example_old_store ]}; calls := [] |}.

(** The state that file loads to: registration open and assignments
    ready. *)
Definition example_old_world : World Z :=
  {| memory :=
       {| participants := [("a1", example_participant "a1" "Amiya" (Some "b2"));
                           ("b2", example_participant "b2" "Exusiai" (Some "a1"))];
          assignmentsReady := true;
          lastShuffledAt := Some "2023-12-01T10:00:00.000Z";
          registrationOpen := true |};
     disk := example_old_disk |}.

(** A store file with a sound record, a record without a token, an entry
    that is not an object, and a record whose token is [null]. *)
Definition example_mixed_records : list (json Z) :=
  [ JObj [ ("token", JStr "a1"); ("name", JStr "Amiya") ];
    JObj [ ("name", JStr "Nameless") ];
    JNum 7%Z;
    JObj [ ("token", JNull); ("name", JStr "Kal'tsit") ] ].

Definition example_mixed_store : json Z :=
  JObj [ ("participants", JArr example_mixed_records) ].

Definition example_mixed_disk : FileSystem Z :=
  {| files := {[ PARTICIPANTS_FILE := JsonText example_mixed_store ]}; calls := [] |}.

(** The world after the Doctor has joined [example_old_world] from the
    address 203.0.113.7. *)
Definition example_addressed_world : World Z :=
  default example_old_world
          (final <$> register example_join (example_platform example_io_ok)
                              example_old_world).

(** A configuration file whose password has white space around it. *)
Definition example_config_disk : FileSystem Z :=
  {| files := {[ CONFIG_FILE :=
                   JsonText (JObj [("adminPassword", JStr "  rhodes-island ")]) ]};
     calls := [] |}.

(** A collation: shorter texts first. *)
Definition example_collation (a b : string) : Z :=
  (Z.of_nat (String.length a) - Z.of_nat (String.length b))%Z.

(** The headers of a request that came through two proxies. *)
Definition example_headers (header : string) : option string :=
  if String.eqb header "x-forwarded-for" then Some " 203.0.113.7:8080 , 10.0.0.1"
  else if String.eqb header "forwarded" then Some "for=198.51.100.4"
  else None.

(** A store file with a record whose token is an object that has its own
    [toString] property. *)
Definition example_unreadable_store : json Z :=
  JObj [ ("participants",
          JArr [ JObj [ ("token", JObj [("toString", JNum 1%Z)]); ("name", JStr "Amiya") ] ]) ].

Definition example_unreadable_disk : FileSystem Z :=
  {| files := {[ PARTICIPANTS_FILE := JsonText example_unreadable_store ]}; calls := [] |}.

(** * Properties *)

(** ** The [Map] model *)

Module JsMapFacts.
Import JsMap.

Section Facts.
Context {V : Type}.
Implicit Types (m : t V) (k : string) (v : V).

Lemma has_true k m : has k m = true <-> k ∈ keys m.
Proof.
  unfold has, keys. induction m as [|[k' v'] m IH]; simpl.
  - split; [discriminate | intros H; inversion H].
  - destruct (String.eqb_spec k' k) as [->|Hne].
    + split; [intros _; left | done].
    + rewrite IH. split; [by right | ].
      intros [?|?]%elem_of_cons; [congruence | done].
Qed.

Lemma has_false k m : has k m = false <-> k ∉ keys m.
Proof.
  rewrite <- has_true. destruct (has k m); split; try done; congruence.
Qed.

Lemma get_None k m : get k m = None <-> k ∉ keys m.
Proof.
  rewrite <- has_false. unfold has. destruct (get k m); split; congruence.
Qed.

Lemma set_fresh k v m : k ∉ keys m -> set k v m = (m ++ [(k, v)])%list.
Proof.
  unfold keys. induction m as [|[k' v'] m IH]; simpl; [done|].
  intros Hk. destruct (String.eqb_spec k' k) as [->|Hne].
  - exfalso. apply Hk. left.
  - f_equal. apply IH. intros ?. apply Hk. by right.
Qed.

Lemma keys_set_present k v m : k ∈ keys m -> keys (set k v m) = keys m.
Proof.
  unfold keys. induction m as [|[k' v'] m IH]; simpl.
  - intros H; inversion H.
  - destruct (String.eqb_spec k' k) as [->|Hne]; simpl; [done|].
    intros [?|?]%elem_of_cons; [congruence|]. f_equal. by apply IH.
Qed.

Lemma NoDup_keys_set k v m : NoDup (keys m) -> NoDup (keys (set k v m)).
Proof.
  intros Hnd. destruct (decide (k ∈ keys m)) as [Hin|Hout].
  - by rewrite keys_set_present.
  - rewrite set_fresh by done. unfold keys in *. rewrite fmap_app. simpl.
    apply NoDup_app. split_and!; [done| |apply NoDup_singleton].
    intros x Hx Hx'. apply list_elem_of_singleton in Hx'. by subst.
Qed.

Lemma Forall_set (P : string * V -> Prop) k v m :
  P (k, v) -> Forall P m -> Forall P (set k v m).
Proof.
  intros Hkv. induction 1 as [|[k' v'] m Hx Hm IH]; simpl.
  - by constructor.
  - destruct (String.eqb_spec k' k); constructor; done.
Qed.

Lemma keys_update k (f : V -> V) m : keys (update k f m) = keys m.
Proof.
  unfold keys. induction m as [|[k' v'] m IH]; simpl; [done|].
  destruct (String.eqb_spec k' k); simpl; [done | by f_equal].
Qed.

Lemma get_update_eq k (f : V -> V) m : get k (update k f m) = f <$> get k m.
Proof.
  induction m as [|[k' v'] m IH]; simpl; [done|].
  destruct (String.eqb_spec k' k) as [->|Hne]; simpl.
  - by rewrite String.eqb_refl.
  - by destruct (String.eqb_spec k' k).
Qed.

Lemma get_update_ne k k' (f : V -> V) m :
  k <> k' -> get k' (update k f m) = get k' m.
Proof.
  intros Hne. induction m as [|[k0 v0] m IH]; simpl; [done|].
  destruct (String.eqb_spec k0 k) as [->|Hne0]; simpl.
  - by destruct (String.eqb_spec k k').
  - by rewrite IH.
Qed.

Lemma keys_for_each_value (f : V -> V) m : keys (for_each_value f m) = keys m.
Proof. unfold keys, for_each_value. by rewrite <- list_fmap_compose. Qed.

Lemma values_for_each_value (f : V -> V) m :
  values (for_each_value f m) = f <$> values m.
Proof. unfold values, for_each_value. by rewrite <- !list_fmap_compose. Qed.

Lemma get_for_each_value (f : V -> V) k m :
  get k (for_each_value f m) = f <$> get k m.
Proof.
  induction m as [|[k' v'] m IH]; simpl; [done|].
  by destruct (String.eqb_spec k' k).
Qed.

Lemma get_Some_values k v m : get k m = Some v -> v ∈ values m.
Proof.
  unfold values. induction m as [|[k' v'] m IH]; simpl; [done|].
  destruct (String.eqb_spec k' k).
  - intros [= ->]. left.
  - intros ?. right. by apply IH.
Qed.

Lemma get_app_fresh k v m : k ∉ keys m -> get k (m ++ [(k, v)])%list = Some v.
Proof.
  unfold keys. induction m as [|[k' v'] m IH]; simpl.
  - by rewrite String.eqb_refl.
  - intros Hk. destruct (String.eqb_spec k' k) as [->|Hne].
    + exfalso. apply Hk. left.
    + apply IH. intros ?. apply Hk. by right.
Qed.

Lemma values_lookup_get i k v m :
  NoDup (keys m) -> m !! i = Some (k, v) -> get k m = Some v.
Proof.
  unfold keys. revert i. induction m as [|[k' v'] m IH]; intros i Hnd Hi; [done|].
  apply NoDup_cons in Hnd as [Hk' Hnd]. simpl. destruct i as [|i]; simpl in Hi.
  - injection Hi as -> ->. by rewrite String.eqb_refl.
  - destruct (String.eqb_spec k' k) as [->|Hne]; [|by eapply IH].
    exfalso. apply Hk'. apply list_elem_of_fmap. exists (k, v). split; [done|].
    by eapply list_elem_of_lookup_2.
Qed.

End Facts.
End JsMapFacts.

(** ** Snapshots *)

Lemma restore_captureParticipant p : restoreParticipant (captureParticipant p) = p.
Proof. by destruct p. Qed.

Lemma capture_restoreParticipant e : captureParticipant (restoreParticipant e) = e.
Proof. by destruct e. Qed.

(** Setting back, one by one, the captured entries of a registry rebuilds
    it behind whatever the map already holds under other keys. *)
Lemma restore_entries (es acc : JsMap.t Participant) :
  keyed es ->
  NoDup (JsMap.keys acc ++ JsMap.keys es) ->
  fold_left (fun m entry => JsMap.set (Persisted.token entry) (restoreParticipant entry) m)
            (captureParticipant <$> JsMap.values es) acc
  = (acc ++ es)%list.
Proof.
  revert acc. induction es as [|[k p] es IH]; intros acc Hkeyed Hnd; simpl.
  - by rewrite app_nil_r.
  - apply Forall_cons in Hkeyed as [Hk Hkeyed]. simpl in Hk. subst k.
    rewrite restore_captureParticipant.
    simpl in Hnd. apply NoDup_app in Hnd as (Hacc & Hdisj & Hes).
    apply NoDup_cons in Hes as [Hp Hes].
    rewrite JsMapFacts.set_fresh.
    2:{ intros Hin. apply (Hdisj _ Hin). left. }
    rewrite IH; [by rewrite <- app_assoc | done |].
    unfold JsMap.keys. rewrite fmap_app. simpl. rewrite <- app_assoc. simpl.
    apply NoDup_app. split_and!; [done | | by apply NoDup_cons].
    intros x Hx Hx'. by apply (Hdisj x).
Qed.

Lemma restore_capture st :
  registry_ok (participants st) -> restoreState (captureState st) = st.
Proof.
  intros [Hnd Hkeyed]. destruct st as [m ready last open]. unfold restoreState. simpl.
  f_equal. by rewrite (restore_entries m JsMap.empty).
Qed.

Lemma capture_restore_capture st :
  registry_ok (participants st) ->
  captureState (restoreState (captureState st)) = captureState st.
Proof. intros H. by rewrite restore_capture. Qed.

(** Whatever the snapshot, the registry [restoreState] builds has each key
    once and every entry under its own token. *)
Lemma restore_entries_ok (l : list PersistedParticipant) (acc : JsMap.t Participant) :
  registry_ok acc ->
  registry_ok
    (fold_left (fun m entry => JsMap.set (Persisted.token entry) (restoreParticipant entry) m)
               l acc).
Proof.
  revert acc. induction l as [|e l IH]; intros acc [Hnd Hkeyed]; simpl; [done|].
  apply IH. split.
  - by apply JsMapFacts.NoDup_keys_set.
  - by apply JsMapFacts.Forall_set.
Qed.

Lemma restoreState_registry_ok snapshot : registry_ok (participants (restoreState snapshot)).
Proof.
  apply restore_entries_ok. split; [apply NoDup_nil_2 | apply Forall_nil_2].
Qed.

(** Every value of the restored registry comes from an entry of the
    snapshot. *)
Lemma restore_entries_values (P : Participant -> Prop)
      (l : list PersistedParticipant) (acc : JsMap.t Participant) :
  Forall P (JsMap.values acc) ->
  Forall (fun e => P (restoreParticipant e)) l ->
  Forall P (JsMap.values
    (fold_left (fun m entry => JsMap.set (Persisted.token entry) (restoreParticipant entry) m)
               l acc)).
Proof.
  revert acc. induction l as [|e l IH]; intros acc Hacc Hl; simpl; [done|].
  apply Forall_cons in Hl as [He Hl]. apply IH; [|done].
  unfold JsMap.values in *. rewrite Forall_fmap in *.
  by apply JsMapFacts.Forall_set.
Qed.

(** ** The writer *)

Lemma tempPath_not_store uuid : tempPath uuid <> PARTICIPANTS_FILE.
Proof. cbv [tempPath PARTICIPANTS_FILE String.append]. congruence. Qed.

Section Persist.

Context {number : Type} `{!JsNumber number}.
Implicit Types (fs : FileSystem number) (o : Io (number := number)).

Lemma persistState_fulfils st o fs :
  snd (persistState st o fs) = true <-> ~ persist_fails o.
Proof.
  unfold persistState, persist_fails, writeFile, rename.
  destruct o as [u [|[left|]] [|] rm]; simpl;
    rewrite ?lookup_insert_eq; simpl; split; try done; intros H.
  all: try (intros [?|?]; done).
  all: exfalso; apply H; auto.
Qed.

Lemma persistState_rejects st o fs :
  snd (persistState st o fs) = false <-> persist_fails o.
Proof.
  pose proof (persistState_fulfils st o fs) as H.
  destruct (snd (persistState st o fs)).
  - split; [done|]. intros Hf. exfalso. by apply H.
  - split; [|done]. intros _. unfold persist_fails.
    destruct o as [u [|left] [|] rm]; simpl in *; auto.
    exfalso. assert (false = true); [|done]. apply H. intros [?|?]; done.
Qed.

(** A write that fails leaves the store file as it was. *)
Lemma persistState_failure_keeps_store st o fs :
  snd (persistState st o fs) = false ->
  files (fst (persistState st o fs)) !! PARTICIPANTS_FILE = files fs !! PARTICIPANTS_FILE.
Proof.
  pose proof (tempPath_not_store (temp_uuid o)) as Hne.
  unfold persistState, writeFile, rename, rm_force.
  destruct o as [u [|[left|]] [|] [|]]; simpl in *;
    rewrite ?lookup_insert_eq; simpl; try done; intros _;
    rewrite ?lookup_delete_ne, ?lookup_insert_ne by done; done.
Qed.

(** A write that succeeds makes the store file the text of the snapshot. *)
Lemma persistState_success_store st o fs :
  snd (persistState st o fs) = true ->
  files (fst (persistState st o fs)) !! PARTICIPANTS_FILE
  = Some (JsonText (stringifyState (captureState st))).
Proof.
  unfold persistState, writeFile, rename, rm_force.
  destruct o as [u [|[left|]] [|] [|]]; simpl in *;
    rewrite ?lookup_insert_eq; simpl; try done; intros _;
    by rewrite lookup_insert_eq.
Qed.

(** Every call of [persistState] reaches the file system. *)
Lemma persistState_calls st o fs :
  exists c more, calls (fst (persistState st o fs)) = (calls fs ++ c :: more)%list.
Proof.
  unfold persistState, writeFile, rename, rm_force.
  destruct o as [u [|[left|]] [|] [|]]; simpl in *;
    rewrite ?lookup_insert_eq; simpl; rewrite <- ?app_assoc; simpl; eauto.
Qed.

Lemma persistState_calls_grow st o fs :
  calls (fst (persistState st o fs)) <> calls fs.
Proof.
  destruct (persistState_calls st o fs) as (c & more & ->).
  intros H. apply (f_equal length) in H. rewrite length_app in H. simpl in H. lia.
Qed.

End Persist.

(** ** The shuffle *)

(** [Math.floor(Math.random() * bound)] is an index below [bound]. *)
Lemma random_index_lt (r : Q) (bound : nat) :
  (0 <= r)%Q -> (r < 1)%Q -> 0 < bound -> random_index r bound < bound.
Proof.
  intros H0 H1 Hb. unfold random_index.
  assert (Hlt : (r * inject_Z (Z.of_nat bound) < inject_Z (Z.of_nat bound))%Q).
  { rewrite <- (Qmult_1_l (inject_Z (Z.of_nat bound))) at 2.
    apply Qmult_lt_compat_r; [|done].
    change 0%Q with (inject_Z 0). rewrite <- Zlt_Qlt. lia. }
  assert (Hge : (0 <= r * inject_Z (Z.of_nat bound))%Q).
  { apply Qmult_le_0_compat; [done|].
    change 0%Q with (inject_Z 0). rewrite <- Zle_Qle. lia. }
  pose proof (Qfloor_le (r * inject_Z (Z.of_nat bound))) as Hfl.
  assert (Hlt' : (inject_Z (Qfloor (r * inject_Z (Z.of_nat bound)))
                  < inject_Z (Z.of_nat bound))%Q) by (eapply Qle_lt_trans; eauto).
  rewrite <- Zlt_Qlt in Hlt'.
  apply Qfloor_resp_le in Hge. change (Qfloor 0) with 0%Z in Hge. lia.
Qed.

Lemma swap_length i j a : length (swap i j a) = length a.
Proof. unfold swap. repeat case_match; by rewrite ?length_insert. Qed.

Lemma swap_Permutation i j a : swap i j a ≡ₚ a.
Proof.
  unfold swap. destruct (a !! i) as [ai|] eqn:Hi; [|done].
  destruct (a !! j) as [aj|] eqn:Hj; [|done].
  pose proof (lookup_lt_Some _ _ _ Hi) as Hil.
  pose proof (lookup_lt_Some _ _ _ Hj) as Hjl.
  apply Permutation_inj. split; [by rewrite !length_insert|].
  exists (fun k => if decide (k = i) then j else if decide (k = j) then i else k).
  split.
  - intros x y. repeat case_decide; intros; subst; congruence.
  - intros k. destruct (decide (k = j)) as [->|Hkj].
    + rewrite list_lookup_insert_eq by (by rewrite length_insert).
      case_decide; subst; congruence.
    + rewrite list_lookup_insert_ne by done.
      destruct (decide (k = i)) as [->|Hki].
      * rewrite list_lookup_insert_eq by done. congruence.
      * rewrite list_lookup_insert_ne by done. done.
Qed.

Lemma fisher_yates_Permutation rnd call i a : fisher_yates rnd call i a ≡ₚ a.
Proof.
  revert call a. induction i as [|i IH]; intros call a; simpl; [done|].
  rewrite IH. apply swap_Permutation.
Qed.

Section AssignReceivers.

Variable g : nat -> option string.

Let step := fun (giverToken : string) (index : nat) (m : JsMap.t Participant) =>
  JsMap.update giverToken (set_assignmentToken (g index)) m.

Lemma keys_forEach_from start l m :
  JsMap.keys (forEach_from step start l m) = JsMap.keys m.
Proof.
  revert start m. induction l as [|x l IH]; intros start m; simpl; [done|].
  rewrite IH. apply JsMapFacts.keys_update.
Qed.

Lemma get_forEach_from_other start l m k :
  k ∉ l -> JsMap.get k (forEach_from step start l m) = JsMap.get k m.
Proof.
  revert start m. induction l as [|x l IH]; intros start m Hk; simpl; [done|].
  apply not_elem_of_cons in Hk as [Hne Hk].
  rewrite IH by done. apply JsMapFacts.get_update_ne. congruence.
Qed.

Lemma get_forEach_from start l m i k :
  NoDup l -> l !! i = Some k ->
  JsMap.get k (forEach_from step start l m)
  = set_assignmentToken (g (start + i)) <$> JsMap.get k m.
Proof.
  revert start m i. induction l as [|x l IH]; intros start m i Hnd Hi; [done|].
  apply NoDup_cons in Hnd as [Hx Hnd]. simpl. destruct i as [|i]; simpl in Hi.
  - injection Hi as ->. rewrite get_forEach_from_other by done.
    unfold step. rewrite JsMapFacts.get_update_eq. by rewrite Nat.add_0_r.
  - rewrite (IH _ _ i) by done. unfold step.
    rewrite JsMapFacts.get_update_ne.
    + by replace (S start + i) with (start + S i) by lia.
    + intros ->. apply Hx. by eapply list_elem_of_lookup_2.
Qed.

End AssignReceivers.

Lemma rotate_Permutation {A} (n : nat) (l : list A) : rotate n l ≡ₚ l.
Proof.
  unfold rotate. rewrite Permutation_app_comm. by rewrite take_drop.
Qed.

Lemma rotate_nat_add_mod (base offset len : nat) :
  0 < len -> rotate_nat_add base offset len = (base + offset) mod len.
Proof.
  intros Hlen. unfold rotate_nat_add.
  rewrite <- Nat2Z.inj_add, <- Nat2Z.inj_mod. apply Nat2Z.id.
Qed.

(** The registry once [shuffled.forEach] has run, for a [shuffled] that
    lists the keys of the registry in some order. *)
Section Cycle.

Variables (m : JsMap.t Participant) (shuffled : list string) (st' : State).
Hypothesis Hok : registry_ok m.
Hypothesis Hperm : shuffled ≡ₚ JsMap.keys m.
Hypothesis Hst' : participants st' = assign_receivers shuffled m.

Lemma shuffled_NoDup : NoDup shuffled.
Proof. rewrite Hperm. apply Hok. Qed.

Lemma assigned_keys : JsMap.keys (participants st') = JsMap.keys m.
Proof. rewrite Hst'. apply keys_forEach_from. Qed.

Lemma assigned_get i t :
  shuffled !! i = Some t ->
  exists p, JsMap.get t m = Some p /\ token p = t
    /\ JsMap.get t (participants st')
       = Some (set_assignmentToken (shuffled !! ((i + 1) mod length shuffled)) p).
Proof.
  intros Hi.
  assert (Hin : t ∈ JsMap.keys m).
  { rewrite <- Hperm. by eapply list_elem_of_lookup_2. }
  destruct (JsMap.get t m) as [p|] eqn:Hget.
  2:{ by apply JsMapFacts.get_None in Hget. }
  exists p. split; [done|]. split.
  - destruct Hok as [_ Hkeyed].
    clear -Hget Hkeyed. induction m as [|[k q] m0 IH]; [done|].
    apply Forall_cons in Hkeyed as [Hk Hkeyed]. simpl in *.
    destruct (String.eqb_spec k t); [congruence | by apply IH].
  - rewrite Hst'. unfold assign_receivers, forEach_indexed.
    rewrite (get_forEach_from
               (fun index => shuffled !! ((index + 1) mod length shuffled)) 0 shuffled m i t)
      by (done || apply shuffled_NoDup).
    by rewrite Hget.
Qed.

Lemma receiver_assigned i t :
  shuffled !! i = Some t ->
  receiver st' t = shuffled !! ((i + 1) mod length shuffled).
Proof.
  intros Hi. destruct (assigned_get i t Hi) as (p & _ & _ & Hget).
  unfold receiver. by rewrite Hget.
Qed.

Lemma follow_assigned k i t :
  shuffled !! i = Some t ->
  follow st' k t = shuffled !! ((i + k) mod length shuffled).
Proof.
  intros Hi. pose proof (lookup_lt_Some _ _ _ Hi) as Hlt.
  induction k as [|k IH]; simpl.
  - rewrite Nat.add_0_r, Nat.mod_small by done. done.
  - rewrite IH.
    destruct (shuffled !! ((i + k) mod length shuffled)) as [t'|] eqn:Hk.
    + rewrite (receiver_assigned _ _ Hk). f_equal.
      rewrite Nat.Div0.add_mod_idemp_l. f_equal. lia.
    + apply lookup_ge_None in Hk.
      pose proof (Nat.mod_upper_bound (i + k) (length shuffled)). lia.
Qed.

Lemma walk_assigned i t :
  shuffled !! i = Some t ->
  walk st' (length shuffled) t = Some <$> rotate i shuffled.
Proof.
  intros Hi. pose proof (lookup_lt_Some _ _ _ Hi) as Hlt.
  apply list_eq. intros k. unfold walk. rewrite !list_lookup_fmap.
  destruct (decide (k < length shuffled)) as [Hk|Hk].
  - rewrite lookup_seq_lt by done. simpl.
    rewrite (follow_assigned k i t Hi).
    rewrite lookup_rotate_r by done. rewrite rotate_nat_add_mod by lia.
    destruct (shuffled !! ((i + k) mod length shuffled)) eqn:Hl; [done|].
    apply lookup_ge_None in Hl.
    pose proof (Nat.mod_upper_bound (i + k) (length shuffled)). lia.
  - rewrite lookup_seq_ge by lia.
    rewrite (lookup_ge_None_2 (rotate i shuffled)); [done|].
    rewrite length_rotate. lia.
Qed.

(** Nobody gives to themselves once there are two participants. *)
Lemma assigned_derangement p :
  2 <= length shuffled ->
  p ∈ JsMap.values (participants st') ->
  exists r, assignmentToken p = Some r /\ r <> token p /\ r ∈ JsMap.keys m.
Proof.
  intros Hlen Hp.
  apply list_elem_of_fmap in Hp as ([k p'] & -> & Hin). simpl.
  apply list_elem_of_lookup in Hin as [idx Hidx].
  assert (Hget : JsMap.get k (participants st') = Some p').
  { eapply JsMapFacts.values_lookup_get; [|done]. rewrite assigned_keys. apply Hok. }
  assert (Hk : k ∈ shuffled).
  { rewrite Hperm, <- assigned_keys. apply list_elem_of_fmap. exists (k, p').
    split; [done|]. by eapply list_elem_of_lookup_2. }
  apply list_elem_of_lookup in Hk as [i Hi].
  pose proof (lookup_lt_Some _ _ _ Hi) as Hlt.
  destruct (assigned_get i k Hi) as (p0 & Hp0 & Htok & Hget').
  rewrite Hget in Hget'. injection Hget' as ->. simpl.
  pose proof (Nat.mod_upper_bound (i + 1) (length shuffled)) as Hub.
  destruct (shuffled !! ((i + 1) mod length shuffled)) as [r|] eqn:Hr.
  2:{ apply lookup_ge_None in Hr. lia. }
  exists r. split; [done|]. split.
  - rewrite Htok. intros ->.
    pose proof (NoDup_lookup _ _ _ _ shuffled_NoDup Hr Hi) as Heq.
    destruct (decide (i + 1 < length shuffled)) as [Hs|Hs].
    + rewrite Nat.mod_small in Heq by done. lia.
    + assert (i + 1 = length shuffled) as Hfull by lia.
      rewrite Hfull, Nat.Div0.mod_same in Heq. lia.
  - rewrite <- Hperm. by eapply list_elem_of_lookup_2.
Qed.

End Cycle.

(** ** The handlers, case by case *)

Lemma createUniqueToken_fresh m draws token :
  createUniqueToken m draws = Some token ->
  (token ∉ JsMap.keys m) /\ exists uuid, uuid ∈ draws /\ token = randomToken uuid.
Proof.
  induction draws as [|uuid rest IH]; simpl; [done|].
  destruct (JsMap.has (randomToken uuid) m) eqn:Hhas.
  - intros H. destruct (IH H) as (Hf & u & Hu & ->). split; [done|].
    exists u. split; [by right | done].
  - intros [= <-]. split; [by apply JsMapFacts.has_false|].
    exists uuid. split; [left | done].
Qed.

(** The loop ends as soon as a draw is not a key of the registry. *)
Lemma createUniqueToken_ends m draws uuid :
  uuid ∈ draws -> randomToken uuid ∉ JsMap.keys m ->
  is_Some (createUniqueToken m draws).
Proof.
  intros Hin Hfresh. induction draws as [|u rest IH]; simpl.
  - inversion Hin.
  - destruct (JsMap.has (randomToken u) m) eqn:Hhas; [|done].
    apply elem_of_cons in Hin as [->|Hin]; [|by apply IH].
    apply JsMapFacts.has_true in Hhas. done.
Qed.

Section Cases.

Context {number : Type} `{!JsNumber number}.
Implicit Types (w : World number) (pf : Platform number) (req : Request number).

Lemma register_cases req pf w run :
  register req pf w = Some run ->
  (final run = w /\ seen run = [] /\ registrationOpen (memory w) = false
   /\ status (reply run) = 403)
  \/ (final run = w /\ seen run = [memory w] /\ registrationOpen (memory w) = true
      /\ (status (reply run) = 400
          \/ reply run = {| status := 500; body := Uncaught "TypeError" |})
      /\ (match json_body req with
          | None => True
          | Some body =>
              match requested_name body with
              | None => True
              | Some name => name = "" \/ 64 < String.length name
              end
          end))
  \/ exists body token name disk1 ok,
       let st1 := register_mutation token name (now pf) (ip req) (memory w) in
       registrationOpen (memory w) = true
       /\ json_body req = Some body /\ requested_name body = Some name
       /\ name <> "" /\ String.length name <= 64
       /\ createUniqueToken (participants (memory w)) (uuids pf) = Some token
       /\ persistState st1 (io pf) (disk w) = (disk1, ok)
       /\ seen run = [memory w; st1]
       /\ (if ok
           then final run = {| memory := st1; disk := disk1 |}
                /\ reply run = {| status := 201; body := Registered token name false |}
           else final run = {| memory := restoreState (captureState (memory w));
                               disk := disk1 |}
                /\ reply run = {| status := 500;
                                  body := Text "Unable to save registration. Try again." |}).
Proof.
  unfold register.
  destruct (registrationOpen (memory w)) eqn:Hopen; simpl.
  2:{ intros [= <-]. left. done. }
  destruct (json_body req) as [body|] eqn:Hbody.
  2:{ intros [= <-]. right; left. simpl. auto 6. }
  destruct (requested_name body) as [name|] eqn:Hname.
  2:{ intros [= <-]. right; left. simpl. auto 6. }
  destruct (falsy name) eqn:Hfalsy.
  { intros [= <-]. right; left. simpl. split_and!; auto.
    left. by destruct name. }
  destruct (64 <? String.length name) eqn:Hlong.
  { intros [= <-]. right; left. simpl. split_and!; auto.
    right. by apply Nat.ltb_lt. }
  destruct (createUniqueToken (participants (memory w)) (uuids pf)) as [token|] eqn:Htok;
    [|done].
  destruct (persistState _ (io pf) (disk w)) as [disk1 ok] eqn:Hpersist.
  intros Hrun. right; right. exists body, token, name, disk1, ok. simpl.
  apply Nat.ltb_ge in Hlong.
  assert (name <> "") by (by destruct name).
  destruct ok; injection Hrun as <-; simpl; split_and!; auto.
Qed.

Lemma shuffle_cases config req pf w :
  let run := shuffle config req pf w in
  (final run = w /\ seen run = [memory w] /\ authorizeAdmin config req = false
   /\ reply run = {| status := 401; body := Failure "Invalid admin password." |})
  \/ (final run = w /\ seen run = [memory w] /\ authorizeAdmin config req = true
      /\ JsMap.size (participants (memory w)) < 2
      /\ reply run
         = {| status := 400;
              body := Failure "At least two participants are required to shuffle." |})
  \/ exists disk1 ok,
       let tokens := JsMap.keys (participants (memory w)) in
       let shuffled := fisher_yates (Math_random pf) 0 (length tokens - 1) tokens in
       let st1 := {| participants := assign_receivers shuffled (participants (memory w));
                     assignmentsReady := true;
                     lastShuffledAt := Some (now pf);
                     registrationOpen := false |} in
       authorizeAdmin config req = true
       /\ 2 <= JsMap.size (participants (memory w))
       /\ persistState st1 (io pf) (disk w) = (disk1, ok)
       /\ seen run = [memory w; st1]
       /\ (if ok
           then final run = {| memory := st1; disk := disk1 |}
                /\ reply run
                   = {| status := 200;
                        body := Shuffled (JsMap.size (participants st1)) (Some (now pf)) |}
           else final run = {| memory := restoreState (captureState (memory w));
                               disk := disk1 |}
                /\ reply run = {| status := 500;
                                  body := Failure "Unable to save shuffle results." |}).
Proof.
  unfold shuffle, shuffleAssignments, close_registration.
  destruct (authorizeAdmin config req) eqn:Hauth; simpl.
  2:{ left. done. }
  assert (Hsize : JsMap.size (participants (memory w))
                  = length (JsMap.keys (participants (memory w)))).
  { unfold JsMap.size, JsMap.keys. by rewrite length_fmap. }
  destruct (length (JsMap.keys (participants (memory w))) <? 2) eqn:Hlen; simpl.
  { right; left. apply Nat.ltb_lt in Hlen. split_and!; auto. lia. }
  apply Nat.ltb_ge in Hlen.
  destruct (persistState _ (io pf) (disk w)) as [disk1 ok] eqn:Hpersist.
  right; right. exists disk1, ok.
  destruct ok; simpl; split_and!; auto; lia.
Qed.

Lemma reopen_cases config req pf w :
  let run := reopen config req pf w in
  (final run = w /\ seen run = [memory w] /\ authorizeAdmin config req = false
   /\ reply run = {| status := 401; body := Failure "Invalid admin password." |})
  \/ exists disk1 ok,
       let st1 := reopen_mutation (memory w) in
       authorizeAdmin config req = true
       /\ persistState st1 (io pf) (disk w) = (disk1, ok)
       /\ seen run = [memory w; st1]
       /\ (if ok
           then final run = {| memory := st1; disk := disk1 |}
                /\ reply run
                   = {| status := 200;
                        body := Reopened (JsMap.size (participants st1)) true |}
           else final run = {| memory := restoreState (captureState (memory w));
                               disk := disk1 |}
                /\ reply run = {| status := 500;
                                  body := Failure "Unable to reopen registration." |}).
Proof.
  unfold reopen.
  destruct (authorizeAdmin config req) eqn:Hauth; simpl.
  2:{ left. done. }
  destruct (persistState _ (io pf) (disk w)) as [disk1 ok] eqn:Hpersist.
  right. exists disk1, ok.
  destruct ok; simpl; split_and!; auto.
Qed.

Lemma shuffle_success_flags config req pf w :
  status (reply (shuffle config req pf w)) = 200 ->
  registrationOpen (memory (final (shuffle config req pf w))) = false
  /\ assignmentsReady (memory (final (shuffle config req pf w))) = true.
Proof.
  intros Hstatus.
  destruct (shuffle_cases config req pf w) as
    [(_ & _ & _ & Hr) | [(_ & _ & _ & _ & Hr) | (disk1 & ok & Hcase)]].
  1,2: rewrite Hr in Hstatus; discriminate.
  simpl in Hcase. destruct Hcase as (_ & _ & _ & _ & Hfinal).
  destruct ok; destruct Hfinal as [Hfinal Hr]; [|rewrite Hr in Hstatus; discriminate].
  by rewrite Hfinal.
Qed.

End Cases.

(** * The claims *)

Section Claims.

Context {number : Type} `{!JsNumber number}.
Implicit Types (w : World number) (pf : Platform number) (req : Request number).
Implicit Types (config : AppConfig).

(** C1.  A shuffle that succeeds (the handler answers 200), on a registry
    as the program builds it, had at least two participants and leaves
    the same participants, each with an [assignmentToken] that is not
    their own token; the walk along the assignment links from any
    participant meets every participant exactly once in its first [n]
    stops and is back at its start after [n] links.  The flags are
    [assignmentsReady = true], [lastShuffledAt = now] and
    [registrationOpen = false], and the only states ever visible during
    the request are the one before and this final one. *)
Theorem C1_successful_shuffle_is_one_cycle config req pf w :
  registry_ok (participants (memory w)) ->
  status (reply (shuffle config req pf w)) = 200 ->
  let st := memory w in
  let st' := memory (final (shuffle config req pf w)) in
  let n := JsMap.size (participants st) in
  2 <= n
  /\ JsMap.keys (participants st') = JsMap.keys (participants st)
  /\ (forall p, p ∈ JsMap.values (participants st') ->
        exists r, assignmentToken p = Some r /\ r <> token p)
  /\ (forall t, t ∈ JsMap.keys (participants st') ->
        exists visited,
          walk st' n t = Some <$> visited
          /\ NoDup visited
          /\ visited ≡ₚ JsMap.keys (participants st')
          /\ follow st' n t = Some t)
  /\ assignmentsReady st' = true
  /\ lastShuffledAt st' = Some (now pf)
  /\ registrationOpen st' = false
  /\ seen (shuffle config req pf w) = [st; st'].
Proof.
  intros Hok Hstatus st st' n. subst st st' n.
  destruct (shuffle_cases config req pf w) as
    [(_ & _ & _ & Hr) | [(_ & _ & _ & _ & Hr) | (disk1 & ok & Hcase)]].
  1,2: rewrite Hr in Hstatus; discriminate.
  simpl in Hcase. destruct Hcase as (_ & Hn & _ & Hseen & Hfinal).
  destruct ok; destruct Hfinal as [Hfinal Hr]; [|rewrite Hr in Hstatus; discriminate].
  rewrite Hseen, Hfinal. simpl.
  set (st := memory w) in *.
  set (tokens := JsMap.keys (participants st)) in *.
  set (shuffled := fisher_yates (Math_random pf) 0 (length tokens - 1) tokens) in *.
  set (st1 := {| participants := assign_receivers shuffled (participants st);
                 assignmentsReady := true; lastShuffledAt := Some (now pf);
                 registrationOpen := false |}) in *.
  assert (Hperm : shuffled ≡ₚ JsMap.keys (participants st))
    by apply fisher_yates_Permutation.
  assert (Hst1 : participants st1 = assign_receivers shuffled (participants st)) by done.
  assert (Hlen : length shuffled = JsMap.size (participants st)).
  { rewrite Hperm. unfold JsMap.size, JsMap.keys. by rewrite length_fmap. }
  pose proof (shuffled_NoDup _ _ Hok Hperm) as Hnd.
  pose proof (assigned_keys _ _ st1 Hst1) as Hkeys.
  change (assign_receivers shuffled (participants st)) with (participants st1).
  split_and!; try done.
  - intros p Hp.
    destruct (assigned_derangement _ _ st1 Hok Hperm Hst1 p) as (r & ? & ? & _);
      [rewrite Hlen; exact Hn | done | eauto].
  - intros t Ht. rewrite Hkeys, <- Hperm in Ht.
    apply list_elem_of_lookup in Ht as [i Hi].
    pose proof (lookup_lt_Some _ _ _ Hi) as Hlt.
    exists (rotate i shuffled). rewrite <- Hlen. split_and!.
    + by apply (walk_assigned _ _ st1 Hok Hperm Hst1).
    + by rewrite rotate_Permutation.
    + by rewrite rotate_Permutation, Hkeys.
    + rewrite (follow_assigned _ _ st1 Hok Hperm Hst1 _ i) by done.
      rewrite <- (Nat.mul_1_l (length shuffled)) at 1.
      rewrite Nat.Div0.mod_add, Nat.mod_small by done. done.
Qed.


(** C5.  On a registry of fewer than two participants the shuffle handler
    changes nothing: the variables (so [registrationOpen] and every
    participant record), the files and the list of file-system calls are
    those it found, so no write was attempted; an authorised request is
    answered 400 with the message of the error [shuffleAssignments]
    throws, and no request is answered 200. *)
Theorem C5_shuffle_needs_two_participants config req pf w :
  JsMap.size (participants (memory w)) < 2 ->
  let run := shuffle config req pf w in
  final run = w
  /\ calls (disk (final run)) = calls (disk w)
  /\ seen run = [memory w]
  /\ shuffleAssignments (Math_random pf) (now pf) (memory w)
     = Throw "At least two participants are required to shuffle."
  /\ (authorizeAdmin config req = true ->
      reply run
      = {| status := 400;
           body := Failure "At least two participants are required to shuffle." |})
  /\ status (reply run) <> 200.
Proof.
  intros Hsize run. subst run.
  assert (Hthrow : shuffleAssignments (Math_random pf) (now pf) (memory w)
                   = Throw "At least two participants are required to shuffle.").
  { unfold shuffleAssignments.
    replace (length (JsMap.keys (participants (memory w))))
      with (JsMap.size (participants (memory w)))
      by (unfold JsMap.size, JsMap.keys; by rewrite length_fmap).
    apply Nat.ltb_lt in Hsize. by rewrite Hsize. }
  destruct (shuffle_cases config req pf w) as
    [(Hf & Hs & Ha & Hr) | [(Hf & Hs & Ha & _ & Hr) | (disk1 & ok & Hcase)]].
  - rewrite Hf, Hs, Hr, Ha. split_and!; done.
  - rewrite Hf, Hs, Hr. split_and!; done.
  - simpl in Hcase. destruct Hcase as (_ & Hn & _). lia.
Qed.

Lemma clear_assignments_twice (m : JsMap.t Participant) :
  JsMap.for_each_value (set_assignmentToken None)
    (JsMap.for_each_value (set_assignmentToken None) m)
  = JsMap.for_each_value (set_assignmentToken None) m.
Proof.
  unfold JsMap.for_each_value. rewrite <- list_fmap_compose.
  apply list_fmap_ext. by intros _ [k p] _.
Qed.

Lemma clear_assignments_unassigned (m : JsMap.t Participant) :
  Forall (fun p => assignmentToken p = None)
         (JsMap.values (JsMap.for_each_value (set_assignmentToken None) m)).
Proof.
  rewrite JsMapFacts.values_for_each_value. apply Forall_fmap.
  by apply Forall_forall.
Qed.

Lemma reopen_mutation_twice st :
  reopen_mutation (reopen_mutation st) = reopen_mutation st.
Proof. unfold reopen_mutation. simpl. by rewrite clear_assignments_twice. Qed.

(** C9.  A reopen that succeeds (the handler answers 200) leaves, whatever
    the state before, [registrationOpen = true], [assignmentsReady =
    false], [lastShuffledAt = null] and no [assignmentToken]; the
    participants are the same, in the same order, each with its other
    fields as before.  A second successful reopen leaves the variables
    and the store file as the first did. *)
Theorem C9_reopen_resets_and_is_idempotent config req pf w :
  status (reply (reopen config req pf w)) = 200 ->
  let st := memory w in
  let after := final (reopen config req pf w) in
  registrationOpen (memory after) = true
  /\ assignmentsReady (memory after) = false
  /\ lastShuffledAt (memory after) = None
  /\ all_unassigned (memory after)
  /\ JsMap.keys (participants (memory after)) = JsMap.keys (participants st)
  /\ (forall k, JsMap.get k (participants (memory after))
                = set_assignmentToken None <$> JsMap.get k (participants st))
  /\ (forall req2 pf2,
        status (reply (reopen config req2 pf2 after)) = 200 ->
        memory (final (reopen config req2 pf2 after)) = memory after
        /\ files (disk (final (reopen config req2 pf2 after))) !! PARTICIPANTS_FILE
           = files (disk after) !! PARTICIPANTS_FILE).
Proof.
  intros Hstatus st after. subst st after.
  destruct (reopen_cases config req pf w) as [(_ & _ & _ & Hr) | (disk1 & ok & Hcase)].
  { rewrite Hr in Hstatus. discriminate. }
  simpl in Hcase. destruct Hcase as (_ & Hpersist & _ & Hfinal).
  destruct ok; destruct Hfinal as [Hfinal Hr]; [|rewrite Hr in Hstatus; discriminate].
  rewrite Hfinal. simpl. split_and!; try done.
  - apply clear_assignments_unassigned.
  - apply JsMapFacts.keys_for_each_value.
  - intros k. apply JsMapFacts.get_for_each_value.
  - intros req2 pf2 Hstatus2.
    destruct (reopen_cases config req2 pf2 {| memory := reopen_mutation (memory w);
                                              disk := disk1 |})
      as [(_ & _ & _ & Hr2) | (disk2 & ok2 & Hcase2)].
    { rewrite Hr2 in Hstatus2. discriminate. }
    simpl in Hcase2. destruct Hcase2 as (_ & Hpersist2 & _ & Hfinal2).
    destruct ok2; destruct Hfinal2 as [Hfinal2 Hr2];
      [|rewrite Hr2 in Hstatus2; discriminate].
    rewrite Hfinal2. simpl. rewrite reopen_mutation_twice. split; [done|].
    rewrite reopen_mutation_twice in Hpersist2.
    pose proof (persistState_success_store (reopen_mutation (memory w)) (io pf) (disk w))
      as H1.
    pose proof (persistState_success_store (reopen_mutation (memory w)) (io pf2) disk1)
      as H2.
    rewrite Hpersist in H1. rewrite Hpersist2 in H2. simpl in *.
    by rewrite H1, H2.
Qed.


Lemma register_mutation_participants token name registeredAt ipAddress st :
  token ∉ JsMap.keys (participants st) ->
  participants (register_mutation token name registeredAt ipAddress st)
  = (JsMap.for_each_value (set_assignmentToken None) (participants st)
     ++ [(token, {| token := token; name := name; assignmentToken := None;
                    registeredAt := registeredAt; ipAddress := ipAddress |})])%list.
Proof.
  intros Hfresh. unfold register_mutation. simpl.
  rewrite JsMapFacts.set_fresh by done.
  unfold JsMap.for_each_value. by rewrite fmap_app.
Qed.

Lemma register_mutation_unassigned token name registeredAt ipAddress st :
  all_unassigned (register_mutation token name registeredAt ipAddress st).
Proof. apply clear_assignments_unassigned. Qed.

(** What a registration answered 201 did. *)
Lemma register_success req pf w run :
  register req pf w = Some run ->
  status (reply run) = 201 ->
  exists token name,
    reply run = {| status := 201; body := Registered token name false |}
    /\ (token ∉ JsMap.keys (participants (memory w)))
    /\ registrationOpen (memory w) = true
    /\ memory (final run) = register_mutation token name (now pf) (ip req) (memory w)
    /\ seen run = [memory w; memory (final run)]
    /\ snd (persistState (memory (final run)) (io pf) (disk w)) = true
    /\ disk (final run) = fst (persistState (memory (final run)) (io pf) (disk w)).
Proof.
  intros Hrun Hstatus.
  destruct (register_cases req pf w run Hrun) as
    [(_ & _ & _ & Hs) | [(_ & _ & _ & [Hs|Hb] & _) | Hcase]].
  - rewrite Hs in Hstatus. discriminate.
  - rewrite Hs in Hstatus. discriminate.
  - rewrite Hb in Hstatus. discriminate.
  - destruct Hcase as (body & token & name & disk1 & ok & Hcase). simpl in Hcase.
    destruct Hcase as (Hopen & _ & _ & _ & _ & Htok & Hpersist & Hseen & Hfinal).
    destruct ok; destruct Hfinal as [Hfinal Hr]; [|rewrite Hr in Hstatus; discriminate].
    exists token, name. rewrite Hfinal, Hseen. simpl. rewrite Hpersist.
    split_and!; try done. by apply createUniqueToken_fresh in Htok as [? _].
Qed.

(** C2.  A registration that succeeds (the handler answers 201) from a
    state with [assignmentsReady = true] stores the new participant under
    a token that was not in the registry, and the state it leaves has no
    [assignmentToken] and [assignmentsReady = false].  Of the states
    visible during the request (at each [await] and at the end), every
    one that holds the new participant already has the assignments
    cleared and [assignmentsReady = false]. *)
Theorem C2_registration_invalidates_assignments req pf w run :
  assignmentsReady (memory w) = true ->
  register req pf w = Some run ->
  status (reply run) = 201 ->
  exists token name,
    body (reply run) = Registered token name false
    /\ (token ∉ JsMap.keys (participants (memory w)))
    /\ JsMap.get token (participants (memory (final run)))
       = Some {| token := token; name := name; assignmentToken := None;
                 registeredAt := now pf; ipAddress := ip req |}
    /\ all_unassigned (memory (final run))
    /\ assignmentsReady (memory (final run)) = false
    /\ (forall s, s ∈ (seen run ++ [memory (final run)])%list ->
          JsMap.has token (participants s) = true ->
          all_unassigned s /\ assignmentsReady s = false).
Proof.
  intros _ Hrun Hstatus.
  destruct (register_success req pf w run Hrun Hstatus)
    as (token & name & Hr & Hfresh & _ & Hmem & Hseen & _).
  exists token, name. rewrite Hr, Hseen, Hmem. simpl. split_and!; try done.
  - pose proof (register_mutation_participants token name (now pf) (ip req) (memory w)
                  Hfresh) as Hp.
    simpl in Hp. rewrite Hp. apply JsMapFacts.get_app_fresh.
    by rewrite JsMapFacts.keys_for_each_value.
  - apply register_mutation_unassigned.
  - intros s Hs Hhas.
    apply elem_of_cons in Hs as [->|Hs].
    { apply JsMapFacts.has_true in Hhas. done. }
    assert (s = register_mutation token name (now pf) (ip req) (memory w)) as ->.
    { apply elem_of_cons in Hs as [->|Hs]; [done|].
      by apply list_elem_of_singleton in Hs. }
    split; [apply register_mutation_unassigned | done].
Qed.

(** C10.  A registration that succeeds, whether or not assignments
    existed, leaves [lastShuffledAt = null] and no [assignmentToken].  The
    registry is the one before with every [assignmentToken] cleared,
    followed by the new participant: the participants that were there
    keep their place, token, name, [registeredAt] and [ipAddress].
    [registrationOpen] is unchanged and [assignmentsReady] is false. *)
Theorem C10_registration_resets_unconditionally req pf w run :
  register req pf w = Some run ->
  status (reply run) = 201 ->
  exists new_token new_name,
    body (reply run) = Registered new_token new_name false
    /\ lastShuffledAt (memory (final run)) = None
    /\ all_unassigned (memory (final run))
    /\ participants (memory (final run))
       = (JsMap.for_each_value (set_assignmentToken None) (participants (memory w))
          ++ [(new_token,
               {| token := new_token; name := new_name; assignmentToken := None;
                  registeredAt := now pf; ipAddress := ip req |})])%list
    /\ (forall k p, JsMap.get k (participants (memory w)) = Some p ->
          exists p', JsMap.get k (participants (memory (final run))) = Some p'
                     /\ token p' = token p /\ name p' = name p
                     /\ registeredAt p' = registeredAt p /\ ipAddress p' = ipAddress p)
    /\ registrationOpen (memory (final run)) = registrationOpen (memory w)
    /\ assignmentsReady (memory (final run)) = false.
Proof.
  intros Hrun Hstatus.
  destruct (register_success req pf w run Hrun Hstatus)
    as (new_token & new_name & Hr & Hfresh & _ & Hmem & _).
  exists new_token, new_name. rewrite Hr, Hmem.
  pose proof (register_mutation_participants new_token new_name (now pf) (ip req)
                (memory w) Hfresh) as Hp.
  split_and!; try done.
  - apply register_mutation_unassigned.
  - intros k p Hget. exists (set_assignmentToken None p). rewrite Hp.
    split; [|done].
    assert (Hk : k <> new_token).
    { intros ->. apply JsMapFacts.get_None in Hfresh. congruence. }
    clear -Hget Hk. induction (participants (memory w)) as [|[k' q] m IH]; [done|].
    simpl in *. destruct (String.eqb_spec k' k); [by simplify_eq | by apply IH].
Qed.

(** C3.  When the write fails ([writeFile] or [rename] fails), a handler
    that got as far as [persistState], run on a registry as the program
    builds it, returns with the variables equal to those before the
    request (and so with the same snapshot), with the store file as it
    was, and with a 500 answer.  This holds for register, shuffle and
    reopen. *)
Theorem C3_failed_write_rolls_back config req pf w :
  registry_ok (participants (memory w)) ->
  persist_fails (io pf) ->
  (forall run, register req pf w = Some run -> wrote w run -> rolled_back w run)
  /\ (wrote w (shuffle config req pf w) -> rolled_back w (shuffle config req pf w))
  /\ (wrote w (reopen config req pf w) -> rolled_back w (reopen config req pf w)).
Proof.
  intros Hok Hfails.
  assert (Hback : forall st1 disk1 ok run,
    persistState st1 (io pf) (disk w) = (disk1, ok) ->
    (if ok then False
     else final run = {| memory := restoreState (captureState (memory w)); disk := disk1 |}
          /\ status (reply run) = 500) ->
    rolled_back w run).
  { intros st1 disk1 ok run Hpersist Hfinal. destruct ok; [done|].
    destruct Hfinal as [Hfinal Hstatus]. unfold rolled_back. rewrite Hfinal. simpl.
    rewrite restore_capture by done. split_and!; try done.
    pose proof (persistState_failure_keeps_store st1 (io pf) (disk w)) as Hkeep.
    rewrite Hpersist in Hkeep. by apply Hkeep. }
  assert (Hnot : forall st1 disk1,
    persistState st1 (io pf) (disk w) = (disk1, true) -> False).
  { intros st1 disk1 Hpersist.
    apply (proj1 (persistState_fulfils st1 (io pf) (disk w))); [|done].
    by rewrite Hpersist. }
  split_and!.
  - intros run Hrun Hwrote.
    destruct (register_cases req pf w run Hrun) as
      [(Hf & _) | [(Hf & _) | Hcase]].
    1,2: unfold wrote in Hwrote; by rewrite Hf in Hwrote.
    destruct Hcase as (body & token & name & disk1 & ok & Hcase). simpl in Hcase.
    destruct Hcase as (_ & _ & _ & _ & _ & _ & Hpersist & _ & Hfinal).
    apply (Hback _ _ _ _ Hpersist). destruct ok; [by eapply Hnot|].
    destruct Hfinal as [? ->]. done.
  - intros Hwrote.
    destruct (shuffle_cases config req pf w) as
      [(Hf & _) | [(Hf & _) | (disk1 & ok & Hcase)]].
    1,2: unfold wrote in Hwrote; by rewrite Hf in Hwrote.
    simpl in Hcase. destruct Hcase as (_ & _ & Hpersist & _ & Hfinal).
    apply (Hback _ _ _ _ Hpersist). destruct ok; [by eapply Hnot|].
    destruct Hfinal as [? ->]. done.
  - intros Hwrote.
    destruct (reopen_cases config req pf w) as [(Hf & _) | (disk1 & ok & Hcase)].
    { unfold wrote in Hwrote. by rewrite Hf in Hwrote. }
    simpl in Hcase. destruct Hcase as (_ & Hpersist & _ & Hfinal).
    apply (Hback _ _ _ _ Hpersist). destruct ok; [by eapply Hnot|].
    destruct Hfinal as [? ->]. done.
Qed.


Local Ltac settle :=
  repeat (split || intro);
  repeat match goal with
         | H : _ /\ _ |- _ => destruct H
         | H : exists _, _ |- _ => destruct H
         | H : _ \/ _ |- _ => destruct H
         end;
  simplify_eq; try lia; eauto 8.

(** C6 (amended).  The register handler checks, in this order: that
    registration is open (else 403); that the body is JSON (else 400);
    and, for the name (the body's [name] turned into text by [String] and
    trimmed, the empty text when the body is not an object with a
    [name]), that it is neither empty nor longer than 64 code units (else
    400).  When [String] throws on the name the handler throws a
    [TypeError] it does not catch, which the server answers with 500.
    Each of the three answers is given exactly in its case.  In these
    cases, and only in these, the handler returns with the variables, the
    files and the file-system calls as they were.  Past the checks, once
    the token loop has found a token that is not in the registry, the
    handler answers 201 with that token and stores the participant when
    the write succeeds, and answers 500 with the variables set back when
    the write fails; a run has no other outcome. *)
Theorem C6_register_outcomes req pf w :
  let st := memory w in
  (registrationOpen st = false ->
     exists run, register req pf w = Some run
                 /\ status (reply run) = 403 /\ final run = w)
  /\ (registrationOpen st = true -> json_body req = None ->
        exists run, register req pf w = Some run
                    /\ status (reply run) = 400 /\ final run = w)
  /\ (forall body,
        registrationOpen st = true -> json_body req = Some body ->
        requested_name body = None ->
        exists run, register req pf w = Some run
                    /\ reply run = {| status := 500; body := Uncaught "TypeError" |}
                    /\ final run = w)
  /\ (forall body text,
        registrationOpen st = true -> json_body req = Some body ->
        requested_name body = Some text ->
        (text = "" \/ 64 < String.length text ->
           exists run, register req pf w = Some run
                       /\ status (reply run) = 400 /\ final run = w)
        /\ (text <> "" -> String.length text <= 64 ->
            forall uuid, uuid ∈ uuids pf -> randomToken uuid ∉ JsMap.keys (participants st) ->
            exists run new_token,
              register req pf w = Some run
              /\ (new_token ∉ JsMap.keys (participants st))
              /\ (~ persist_fails (io pf) ->
                    reply run = {| status := 201; body := Registered new_token text false |}
                    /\ JsMap.get new_token (participants (memory (final run)))
                       = Some {| token := new_token; name := text; assignmentToken := None;
                                 registeredAt := now pf; ipAddress := ip req |})
              /\ (persist_fails (io pf) ->
                    reply run = {| status := 500;
                                   body := Text "Unable to save registration. Try again." |}
                    /\ memory (final run) = restoreState (captureState st))))
  /\ (forall run, register req pf w = Some run ->
        let early := status (reply run) = 403 \/ status (reply run) = 400
                     \/ body (reply run) = Uncaught "TypeError" in
        (status (reply run) = 403 <-> registrationOpen st = false)
        /\ (status (reply run) = 400 <->
              registrationOpen st = true
              /\ (json_body req = None
                  \/ exists body text,
                       json_body req = Some body /\ requested_name body = Some text
                       /\ (text = "" \/ 64 < String.length text)))
        /\ (body (reply run) = Uncaught "TypeError" <->
              registrationOpen st = true
              /\ exists body, json_body req = Some body /\ requested_name body = None)
        /\ (early <-> final run = w)
        /\ (early <-> calls (disk (final run)) = calls (disk w))
        /\ (early \/ status (reply run) = 201
            \/ reply run = {| status := 500;
                              body := Text "Unable to save registration. Try again." |})).
Proof.
  intros st. subst st. split_and!.
  - intros Hopen. unfold register. rewrite Hopen. simpl. eauto.
  - intros Hopen Hbody. unfold register. rewrite Hopen, Hbody. simpl. eauto.
  - intros body Hopen Hbody Hname. unfold register. rewrite Hopen, Hbody, Hname. simpl. eauto.
  - intros body text Hopen Hbody Hname. split.
    + intros Hbad. unfold register. rewrite Hopen, Hbody, Hname. simpl.
      destruct text as [|c text]; simpl; [eauto|].
      destruct Hbad as [?|Hlong]; [done|].
      apply Nat.ltb_lt in Hlong. simpl in Hlong. rewrite Hlong. eauto.
    + intros Hne Hlen uuid Hin Hfresh.
      destruct (createUniqueToken_ends _ _ _ Hin Hfresh) as [new_token Htok].
      unfold register. rewrite Hopen, Hbody, Hname, Htok. simpl.
      destruct text as [|c text]; [done|]. simpl.
      apply Nat.leb_le in Hlen. rewrite Nat.leb_antisym in Hlen.
      apply negb_true_iff in Hlen. simpl in Hlen. rewrite Hlen.
      set (st1 := register_mutation new_token (String c text) (now pf) (ip req) (memory w)).
      pose proof (persistState_fulfils st1 (io pf) (disk w)) as Hok.
      pose proof (persistState_rejects st1 (io pf) (disk w)) as Hko.
      apply createUniqueToken_fresh in Htok as [Hnew _].
      destruct (persistState st1 (io pf) (disk w)) as [disk1 [|]]; simpl in *.
      * eexists _, new_token. split_and!; [done | done | | ].
        -- intros _. split; [done|].
           pose proof (register_mutation_participants new_token (String c text) (now pf)
                         (ip req) (memory w) Hnew) as Hp.
           cbn [final memory]. subst st1. rewrite Hp. apply JsMapFacts.get_app_fresh.
           by rewrite JsMapFacts.keys_for_each_value.
        -- intros Hf. exfalso. by apply Hok.
      * eexists _, new_token. split_and!; [done | done | | ].
        -- intros Hnf. exfalso. apply Hnf. by apply Hko.
        -- done.
  - intros run Hrun early. subst early. revert Hrun. unfold register.
    destruct (registrationOpen (memory w)) eqn:Hopen; simpl.
    2:{ intros [= <-]. simpl. settle. }
    destruct (json_body req) as [payload|] eqn:Hbody.
    2:{ intros [= <-]. simpl. settle. }
    destruct (requested_name payload) as [text|] eqn:Hname.
    2:{ intros [= <-]. simpl. settle. }
    destruct (falsy text) eqn:Hfalsy.
    { intros [= <-]. simpl. assert (text = "") by (by destruct text). settle. }
    assert (Hne : text <> "") by (by destruct text).
    destruct (64 <? String.length text) eqn:Hlong.
    { intros [= <-]. simpl. apply Nat.ltb_lt in Hlong. settle. }
    apply Nat.ltb_ge in Hlong.
    destruct (createUniqueToken (participants (memory w)) (uuids pf)) as [new_token|];
      [|done].
    pose proof (persistState_calls_grow
                  (register_mutation new_token text (now pf) (ip req) (memory w))
                  (io pf) (disk w)) as Hgrow.
    destruct (persistState _ (io pf) (disk w)) as [disk1 ok]. simpl in Hgrow.
    assert (Hbad : ~ (text = "" \/ 64 < String.length text)) by (intros [?|?]; [done|lia]).
    destruct ok; intros [= <-]; simpl.
    all: settle.
    all: match goal with
         | H : mkWorld _ _ = _ |- _ => apply (f_equal disk) in H; simpl in H; by subst
         end.
Qed.

(** C8 (amended).  A register, shuffle or reopen that succeeds leaves
    [registrationOpen] and [assignmentsReady] not both true, whatever
    the state before.  [restoreState] copies the two flags from the
    snapshot, so after it they are both true exactly when they are in the
    snapshot; in particular every handler, however it ends, keeps them
    exclusive if they were, and the initial variables have them
    exclusive. *)
Theorem C8_flags_exclusive_after_mutations config req pf w :
  (forall run, register req pf w = Some run -> status (reply run) = 201 ->
     flags_exclusive (memory (final run)))
  /\ (status (reply (shuffle config req pf w)) = 200 ->
      flags_exclusive (memory (final (shuffle config req pf w))))
  /\ (status (reply (reopen config req pf w)) = 200 ->
      flags_exclusive (memory (final (reopen config req pf w))))
  /\ (forall snapshot,
        flags_exclusive (restoreState snapshot)
        <-> ~ (Persisted.registrationOpen snapshot = true
               /\ Persisted.assignmentsReady snapshot = true))
  /\ flags_exclusive initial_state
  /\ (flags_exclusive (memory w) ->
      (forall run, register req pf w = Some run -> flags_exclusive (memory (final run)))
      /\ flags_exclusive (memory (final (shuffle config req pf w)))
      /\ flags_exclusive (memory (final (reopen config req pf w)))).
Proof.
  unfold flags_exclusive. split_and!.
  - intros run Hrun Hstatus.
    destruct (register_success req pf w run Hrun Hstatus)
      as (new_token & text & _ & _ & _ & -> & _).
    simpl. by intros [_ ?].
  - intros Hstatus.
    destruct (shuffle_success_flags config req pf w Hstatus) as [-> _].
    by intros [? _].
  - intros Hstatus.
    destruct (reopen_cases config req pf w) as [(_ & _ & _ & Hr) | (disk1 & ok & Hcase)].
    { rewrite Hr in Hstatus. discriminate. }
    simpl in Hcase. destruct Hcase as (_ & _ & _ & Hfinal).
    destruct ok; destruct Hfinal as [-> Hr]; [|rewrite Hr in Hstatus; discriminate].
    simpl. by intros [_ ?].
  - done.
  - simpl. by intros [_ ?].
  - intros Hex. split_and!.
    + intros run Hrun.
      destruct (register_cases req pf w run Hrun) as
        [(-> & _) | [(-> & _) | Hcase]]; [done..|].
      destruct Hcase as (body & new_token & text & disk1 & ok & Hcase). simpl in Hcase.
      destruct Hcase as (_ & _ & _ & _ & _ & _ & _ & _ & Hfinal).
      destruct ok; destruct Hfinal as [-> _]; simpl; [by intros [_ ?] | done].
    + destruct (shuffle_cases config req pf w) as
        [(-> & _) | [(-> & _) | (disk1 & ok & Hcase)]]; [done..|].
      simpl in Hcase. destruct Hcase as (_ & _ & _ & _ & Hfinal).
      destruct ok; destruct Hfinal as [-> _]; simpl; [by intros [? _] | done].
    + destruct (reopen_cases config req pf w) as [(-> & _) | (disk1 & ok & Hcase)];
        [done|].
      simpl in Hcase. destruct Hcase as (_ & _ & _ & Hfinal).
      destruct ok; destruct Hfinal as [-> _]; simpl; [by intros [_ ?] | done].
Qed.


(** *** The loader *)

Lemma map_throwing_Some {A B} (f : A -> option B) (g : A -> B) (l : list A) :
  Forall (fun x => f x = Some (g x)) l -> map_throwing f l = Some (g <$> l).
Proof.
  induction 1 as [|x l Hx Hl IH]; simpl; [done|]. by rewrite Hx, IH.
Qed.

Lemma filter_not_null_Some {A} (l : list A) : filter_not_null (Some <$> l) = l.
Proof.
  unfold filter_not_null. induction l as [|x l IH]; simpl; [done|]. by f_equal.
Qed.

(** On a record whose token and name [String] can read, the callback
    returns [null] or the stored record as the spec words it. *)
Lemma sanitizeParticipant_spec now (record : json number) :
  coercible record ->
  sanitizeParticipant now record
  = Some (if spec_keeps record then Some (spec_stored now record) else None).
Proof.
  intros [[tok Htok] [nm Hnm]].
  unfold sanitizeParticipant, spec_keeps, spec_stored, coerced.
  rewrite Htok, Hnm. simpl.
  destruct (is_object record); simpl; [|done].
  destruct (falsy tok); simpl; [done|].
  destruct (falsy nm); simpl; [done|].
  repeat f_equal. unfold nonempty_string_field. by repeat case_match.
Qed.

Lemma map_throwing_sanitize now (records : list (json number)) :
  Forall coercible records ->
  exists mapped,
    map_throwing (sanitizeParticipant now) records = Some mapped
    /\ filter_not_null mapped = spec_participants now records.
Proof.
  unfold spec_participants, filter_not_null.
  induction 1 as [|r records Hr Hrs (mapped & Hmap & Hfilter)]; simpl.
  - by exists [].
  - rewrite (sanitizeParticipant_spec now r Hr), Hmap.
    eexists. split; [done|]. simpl.
    destruct (spec_keeps r); simpl; [f_equal|]; exact Hfilter.
Qed.


(** Entries with pairwise distinct tokens are all kept by
    [restoreState], in order. *)
Lemma restore_distinct (l : list PersistedParticipant) (acc : JsMap.t Participant) :
  NoDup (JsMap.keys acc ++ (Persisted.token <$> l)) ->
  fold_left (fun m entry => JsMap.set (Persisted.token entry) (restoreParticipant entry) m)
            l acc
  = (acc ++ ((fun e => (Persisted.token e, restoreParticipant e)) <$> l))%list.
Proof.
  revert acc. induction l as [|e l IH]; intros acc Hnd; simpl.
  - by rewrite app_nil_r.
  - simpl in Hnd. apply NoDup_app in Hnd as (Hacc & Hdisj & Hl).
    apply NoDup_cons in Hl as [He Hl].
    rewrite JsMapFacts.set_fresh.
    2:{ intros Hin. apply (Hdisj _ Hin). left. }
    rewrite IH; [by rewrite <- app_assoc|].
    unfold JsMap.keys. rewrite fmap_app. simpl. rewrite <- app_assoc. simpl.
    apply NoDup_app. split_and!; [done | | by apply NoDup_cons].
    intros x Hx Hx'. by apply (Hdisj x).
Qed.

Lemma restoreState_values_distinct snapshot :
  NoDup (Persisted.token <$> Persisted.participants snapshot) ->
  JsMap.values (participants (restoreState snapshot))
  = restoreParticipant <$> Persisted.participants snapshot.
Proof.
  intros Hnd. unfold restoreState. simpl.
  rewrite (restore_distinct _ JsMap.empty) by done. simpl.
  unfold JsMap.values. by rewrite <- list_fmap_compose.
Qed.

(** C7 (amended).  For a store file that parses to an object whose
    [participants] is an array, and in which [String] can read the token
    and the name of every record, loading is not fatal.  The loader reads
    a token or a name as the empty text when the property is absent and
    as [String] of its value otherwise (so [null] reads ["null"]); it
    drops the records that are not objects or whose token or name reads
    empty, and keeps all the others, in order, with [registeredAt]
    defaulted to the current time when it is not a non-empty string, and
    [assignmentToken] and [ipAddress] to [null].  Flags that are absent
    are read [assignmentsReady = false], [lastShuffledAt = null],
    [registrationOpen = true].  When the kept tokens are pairwise
    distinct, the registry holds exactly the kept records. *)
Theorem C7_load_validates_each_record now fs parsed records :
  files fs !! PARTICIPANTS_FILE = Some (JsonText parsed) ->
  is_object parsed = true ->
  field "participants" parsed = Some (JArr records) ->
  Forall coercible records ->
  exists sanitized,
    sanitize now parsed records = Some sanitized
    /\ loadPersistedState now None fs initial_state = Started (restoreState sanitized)
    /\ Persisted.participants sanitized = spec_participants now records
    /\ (NoDup (Persisted.token <$> spec_participants now records) ->
        JsMap.values (participants (restoreState sanitized))
        = restoreParticipant <$> spec_participants now records)
    /\ (forall r, is_object r = false
                  \/ field "token" r = None \/ field "token" r = Some (JStr "")
                  \/ field "name" r = None \/ field "name" r = Some (JStr "") ->
                  spec_keeps r = false)
    /\ (forall r tok nm,
          is_object r = true ->
          field "token" r = Some (JStr tok) -> tok <> "" ->
          field "name" r = Some (JStr nm) -> nm <> "" ->
          spec_keeps r = true
          /\ Persisted.token (spec_stored now r) = tok
          /\ Persisted.name (spec_stored now r) = nm)
    /\ (forall r, (forall s, field "registeredAt" r = Some (JStr s) -> s = "") ->
                  Persisted.registeredAt (spec_stored now r) = now)
    /\ (forall r, field "assignmentToken" r = None ->
                  Persisted.assignmentToken (spec_stored now r) = None)
    /\ (forall r, field "ipAddress" r = None ->
                  Persisted.ipAddress (spec_stored now r) = None)
    /\ (field "assignmentsReady" parsed = None ->
        assignmentsReady (restoreState sanitized) = false)
    /\ (field "lastShuffledAt" parsed = None ->
        lastShuffledAt (restoreState sanitized) = None)
    /\ (field "registrationOpen" parsed = None ->
        registrationOpen (restoreState sanitized) = true).
Proof.
  intros Hfile Hobj Hrecords Hco.
  destruct (map_throwing_sanitize now records Hco) as (mapped & Hmap & Hfilter).
  eexists. unfold sanitize. rewrite Hmap. split; [done|].
  split_and!.
  - unfold loadPersistedState. rewrite Hfile, Hobj, Hrecords.
    unfold sanitize. by rewrite Hmap.
  - done.
  - intros Hnd. rewrite restoreState_values_distinct; simpl; by rewrite Hfilter.
  - intros r. unfold spec_keeps, coerced, text_field.
    intros [-> | [-> | [-> | [-> | ->]]]]; simpl; try done.
    all: destruct (is_object r); simpl; try done.
    all: by rewrite andb_false_r.
  - intros r tok nm Hr Htok Htne Hnm Hnne.
    unfold spec_keeps, spec_stored, coerced, text_field.
    rewrite Hr, Htok, Hnm. simpl.
    destruct tok; [done|]. by destruct nm.
  - intros r Hreg. unfold spec_stored. simpl.
    destruct (field "registeredAt" r) as [[| | |s| |]|] eqn:Hf; try done.
    by rewrite (Hreg s eq_refl).
  - intros r Hf. unfold spec_stored. simpl. by rewrite Hf.
  - intros r Hf. unfold spec_stored. simpl. by rewrite Hf.
  - intros Hf. simpl. by rewrite Hf.
  - intros Hf. simpl. unfold nonempty_string_field. by rewrite Hf.
  - intros Hf. simpl. by rewrite Hf.
Qed.


(** *** Round trip through the store file *)

Lemma sanitizeParticipant_stringify now (p : Participant) :
  token p <> "" -> name p <> "" -> registeredAt p <> "" -> assignmentToken p <> Some "" ->
  sanitizeParticipant (number := number) now (stringifyParticipant (captureParticipant p))
  = Some (Some (captureParticipant (normalize_ip p))).
Proof.
  destruct p as [tok nm asg reg ipa]. simpl. intros Ht Hn Hr Ha.
  unfold sanitizeParticipant, stringifyParticipant, text_field, nonempty_string_field.
  simpl. destruct tok; [done|]. destruct nm; [done|]. destruct reg; [done|]. simpl.
  destruct asg as [[|c0 asg]|]; [done| |]; by destruct ipa.
Qed.

Lemma state_view_normalize_ips st : state_view (normalize_ips st) = state_view st.
Proof.
  unfold state_view, normalize_ips. simpl.
  rewrite JsMapFacts.values_for_each_value, <- list_fmap_compose.
  reflexivity.
Qed.

Lemma registry_ok_for_each_value (f : Participant -> Participant) m :
  (forall p, token (f p) = token p) ->
  registry_ok m -> registry_ok (JsMap.for_each_value f m).
Proof.
  intros Hf [Hnd Hkeyed]. split.
  - by rewrite JsMapFacts.keys_for_each_value.
  - unfold keyed, JsMap.for_each_value in *. rewrite Forall_fmap.
    eapply Forall_impl; [done|]. intros [k p]. simpl. by rewrite Hf.
Qed.

(** Loading the text [persistState] wrote for a storable state gives the
    state back, the [ipAddress] texts normalised. *)
Lemma load_stringify now fs st :
  storable st ->
  files fs !! PARTICIPANTS_FILE = Some (JsonText (stringifyState (captureState st))) ->
  loadPersistedState now None fs initial_state = Started (normalize_ips st).
Proof.
  intros (Hok & Hvalues & Hlast) Hfile.
  unfold loadPersistedState. rewrite Hfile. simpl.
  unfold sanitize.
  assert (Hmap : map_throwing (sanitizeParticipant now)
                   (stringifyParticipant <$>
                      (captureParticipant <$> JsMap.values (participants st)))
                 = Some (Some <$> (captureParticipant <$>
                           JsMap.values (participants (normalize_ips st))))).
  { simpl. rewrite JsMapFacts.values_for_each_value.
    induction Hvalues as [|p ps (Ht & Hn & Hr & Ha) Hps IH]; simpl; [done|].
    rewrite sanitizeParticipant_stringify by done.
    unfold fmap in IH. by rewrite IH. }
  rewrite Hmap, filter_not_null_Some. f_equal.
  rewrite <- (restore_capture (normalize_ips st)) at 2
    by (simpl; by apply registry_ok_for_each_value).
  f_equal. unfold captureState, stringifyState, nonempty_string_field, field. simpl.
  by destruct (lastShuffledAt st) as [[|c l]|].
Qed.


(** *** Every reachable state is storable *)

Lemma storable_initial : storable initial_state.
Proof.
  split_and!; [split; [apply NoDup_nil_2 | apply Forall_nil_2] | apply Forall_nil_2 | done].
Qed.

Lemma sanitizeParticipant_storable now (r : json number) e :
  now <> "" ->
  sanitizeParticipant now r = Some (Some e) ->
  Persisted.token e <> "" /\ Persisted.name e <> "" /\ Persisted.registeredAt e <> ""
  /\ Persisted.assignmentToken e <> Some "".
Proof.
  intros Hnow. unfold sanitizeParticipant.
  destruct (is_object r); simpl; [|done].
  destruct (text_field "token" r) as [tok|]; [|done].
  destruct (text_field "name" r) as [nm|]; [|done].
  destruct tok as [|c tok]; [done|]. destruct nm as [|c' nm]; [done|]. simpl.
  intros [= <-]. simpl. split_and!; try done.
  - unfold nonempty_string_field.
    destruct (field "registeredAt" r) as [[| | |[|]| |]|]; simpl; congruence.
  - unfold nonempty_string_field.
    destruct (field "assignmentToken" r) as [[| | |[|]| |]|]; simpl; congruence.
Qed.

Lemma map_throwing_elem {A B} (f : A -> option B) (l : list A) ys y :
  map_throwing f l = Some ys -> y ∈ ys -> exists x, x ∈ l /\ f x = Some y.
Proof.
  revert ys. induction l as [|x l IH]; intros ys; simpl.
  - intros [= <-] Hy. inversion Hy.
  - destruct (f x) as [y0|] eqn:Hx; [|done].
    destruct (map_throwing f l) as [ys0|]; [|done].
    intros [= <-] [->|Hy]%elem_of_cons.
    + exists x. split; [left | done].
    + destruct (IH ys0 eq_refl Hy) as (x' & Hin & Hfx).
      exists x'. split; [by right | done].
Qed.

Lemma filter_not_null_elem {A} (l : list (option A)) x :
  x ∈ filter_not_null l -> Some x ∈ l.
Proof.
  unfold filter_not_null. intros Hx.
  apply list_elem_of_omap in Hx as (o & Ho & Heq). simpl in Heq. by subst.
Qed.

Lemma load_storable now read_error fs st :
  now <> "" ->
  loadPersistedState now read_error fs initial_state = Started st ->
  storable st.
Proof.
  intros Hnow. unfold loadPersistedState.
  destruct (files fs !! PARTICIPANTS_FILE) as [contents|].
  2:{ intros [= <-]. apply storable_initial. }
  destruct read_error as [code|].
  { destruct (String.eqb code "ENOENT"); [|done].
    intros [= <-]. apply storable_initial. }
  destruct contents as [|parsed]; [done|].
  destruct (is_object parsed); [|done].
  destruct (field "participants" parsed) as [[| | | |records|]|]; try done.
  unfold sanitize.
  destruct (map_throwing (sanitizeParticipant now) records) as [mapped|] eqn:Hmap; [|done].
  intros [= <-]. split_and!.
  - apply restoreState_registry_ok.
  - unfold restoreState. simpl.
    apply (restore_entries_values
             (fun p => token p <> "" /\ name p <> "" /\ registeredAt p <> ""
                       /\ assignmentToken p <> Some "")).
    { apply Forall_nil_2. }
    apply Forall_forall. intros e He.
    apply filter_not_null_elem in He.
    destruct (map_throwing_elem _ _ _ _ Hmap He) as (r & _ & Hr).
    by apply (sanitizeParticipant_storable now r e).
  - simpl. unfold nonempty_string_field.
    destruct (field "lastShuffledAt" parsed) as [[| | |[|]| |]|]; simpl; congruence.
Qed.

Lemma storable_rollback st : storable st -> storable (restoreState (captureState st)).
Proof. intros Hst. rewrite restore_capture; [done | apply Hst]. Qed.

Lemma Forall_update_assignment (Q : string * Participant -> Prop) k v m :
  (forall k p, Q (k, p) -> Q (k, set_assignmentToken v p)) ->
  Forall Q m -> Forall Q (JsMap.update k (set_assignmentToken v) m).
Proof.
  intros HQ. induction 1 as [|[k' p] m Hp Hm IH]; simpl; [done|].
  destruct (String.eqb_spec k' k); constructor; auto.
Qed.

Lemma Forall_forEach_from (Q : string * Participant -> Prop)
      (g : nat -> option string) start l m :
  (forall v k p, Q (k, p) -> Q (k, set_assignmentToken v p)) ->
  Forall Q m ->
  Forall Q (forEach_from
              (fun giverToken index m =>
                 JsMap.update giverToken (set_assignmentToken (g index)) m)
              start l m).
Proof.
  intros HQ. revert start m.
  induction l as [|x l IH]; intros start m Hm; simpl; [done|].
  apply IH. apply Forall_update_assignment; [apply HQ | done].
Qed.

Lemma Forall_assign_receivers (Q : string * Participant -> Prop) shuffled m :
  (forall v k p, Q (k, p) -> Q (k, set_assignmentToken v p)) ->
  Forall Q m -> Forall Q (assign_receivers shuffled m).
Proof.
  intros HQ Hm. unfold assign_receivers, forEach_indexed.
  by apply (Forall_forEach_from Q
              (fun index => shuffled !! ((index + 1) mod length shuffled))).
Qed.

Lemma register_storable req pf w run :
  storable (memory w) -> platform_ok pf ->
  register req pf w = Some run -> storable (memory (final run)).
Proof.
  intros Hst [Hnow Huuids] Hrun.
  destruct (register_cases req pf w run Hrun) as [(-> & _) | [(-> & _) | Hcase]];
    [done..|].
  destruct Hcase as (body & new_token & text & disk1 & ok & Hcase). simpl in Hcase.
  destruct Hcase as (_ & _ & _ & Htext & _ & Htok & _ & _ & Hfinal).
  destruct ok; destruct Hfinal as [-> _]; simpl; [|by apply storable_rollback].
  destruct Hst as ((Hnd & Hkeyed) & Hvalues & _).
  apply createUniqueToken_fresh in Htok as (Hfresh & uuid & Huuid & ->).
  rewrite Forall_forall in Huuids. specialize (Huuids uuid Huuid).
  unfold storable.
  rewrite (register_mutation_participants _ _ _ _ _ Hfresh).
  split_and!.
  - split.
    + unfold JsMap.keys. rewrite fmap_app. simpl.
      apply NoDup_app. split_and!.
      * fold (JsMap.keys (JsMap.for_each_value (set_assignmentToken None)
                            (participants (memory w)))).
        by rewrite JsMapFacts.keys_for_each_value.
      * intros x Hx Hx'. apply list_elem_of_singleton in Hx'. subst x.
        apply Hfresh.
        by rewrite <- (JsMapFacts.keys_for_each_value (set_assignmentToken None)).
      * apply NoDup_singleton.
    + apply Forall_app. split.
      * unfold JsMap.for_each_value. rewrite Forall_fmap.
        eapply Forall_impl; [exact Hkeyed|]. by intros [k p].
      * by constructor.
  - unfold JsMap.values. rewrite fmap_app. apply Forall_app. split.
    + fold (JsMap.values (JsMap.for_each_value (set_assignmentToken None)
                            (participants (memory w)))).
      rewrite JsMapFacts.values_for_each_value, Forall_fmap.
      eapply Forall_impl; [exact Hvalues|]. intros p (? & ? & ? & _). simpl.
      split_and!; done.
    + constructor; [|done]. simpl. split_and!; done.
  - done.
Qed.

Lemma reopen_storable config req pf w :
  storable (memory w) -> storable (memory (final (reopen config req pf w))).
Proof.
  intros Hst.
  destruct (reopen_cases config req pf w) as [(-> & _) | (disk1 & ok & Hcase)]; [done|].
  simpl in Hcase. destruct Hcase as (_ & _ & _ & Hfinal).
  destruct ok; destruct Hfinal as [-> _]; simpl; [|by apply storable_rollback].
  destruct Hst as (Hok & Hvalues & _). split_and!.
  - by apply registry_ok_for_each_value.
  - simpl. rewrite JsMapFacts.values_for_each_value, Forall_fmap.
    eapply Forall_impl; [exact Hvalues|]. intros p (? & ? & ? & _). simpl.
    split_and!; done.
  - done.
Qed.


Lemma shuffle_storable config req pf w :
  storable (memory w) -> platform_ok pf ->
  storable (memory (final (shuffle config req pf w))).
Proof.
  intros Hst [Hnow _].
  destruct (shuffle_cases config req pf w) as
    [(-> & _) | [(-> & _) | (disk1 & ok & Hcase)]]; [done..|].
  simpl in Hcase. destruct Hcase as (_ & Hn & _ & _ & Hfinal).
  destruct ok; destruct Hfinal as [-> _]; simpl; [|by apply storable_rollback].
  destruct Hst as (Hok & Hvalues & _).
  set (m := participants (memory w)) in *.
  set (shuffled := fisher_yates (Math_random pf) 0 (length (JsMap.keys m) - 1)
                     (JsMap.keys m)).
  set (st1 := {| participants := assign_receivers shuffled m;
                 assignmentsReady := true; lastShuffledAt := Some (now pf);
                 registrationOpen := false |}).
  assert (Hperm : shuffled ≡ₚ JsMap.keys m) by apply fisher_yates_Permutation.
  assert (Hlen : 2 <= length shuffled).
  { rewrite Hperm. unfold JsMap.size, JsMap.keys in *. by rewrite length_fmap. }
  assert (Hentries : Forall (fun e => token (snd e) = fst e /\ token (snd e) <> ""
                                      /\ name (snd e) <> "" /\ registeredAt (snd e) <> "")
                            (assign_receivers shuffled m)).
  { apply Forall_assign_receivers; [by intros v k p|].
    destruct Hok as [_ Hkeyed]. unfold keyed, JsMap.values in *.
    rewrite Forall_fmap in Hvalues.
    apply Forall_forall. intros [k p] Hin.
    rewrite Forall_forall in Hkeyed. rewrite Forall_forall in Hvalues.
    specialize (Hkeyed _ Hin). specialize (Hvalues _ Hin). simpl in *.
    destruct Hvalues as (? & ? & ? & _). done. }
  assert (Hkeys_ne : forall k, k ∈ JsMap.keys m -> k <> "").
  { intros k Hk. apply list_elem_of_fmap in Hk as ([k' p] & -> & Hin). simpl.
    destruct Hok as [_ Hkeyed]. unfold keyed, JsMap.values in *.
    rewrite Forall_fmap in Hvalues.
    rewrite Forall_forall in Hkeyed. rewrite Forall_forall in Hvalues.
    specialize (Hkeyed _ Hin). specialize (Hvalues _ Hin). simpl in *.
    destruct Hvalues as (? & _). congruence. }
  split_and!.
  - split.
    + simpl. unfold assign_receivers, forEach_indexed.
      rewrite keys_forEach_from. apply Hok.
    + unfold keyed. simpl. eapply Forall_impl; [exact Hentries|].
      by intros e (? & _).
  - apply Forall_forall. intros p Hp.
    destruct (assigned_derangement m shuffled st1 Hok Hperm eq_refl p Hlen Hp)
      as (r & Hr & _ & Hin).
    simpl in Hp. apply list_elem_of_fmap in Hp as (e & -> & He).
    rewrite Forall_forall in Hentries. destruct (Hentries e He) as (_ & ? & ? & ?).
    split_and!; try done.
    rewrite Hr. intros [= ->]. by apply (Hkeys_ne "").
  - simpl. congruence.
Qed.

Lemma reachable_storable config w : reachable config w -> storable (memory w).
Proof.
  induction 1 as [now0 read_error fs st Hnow Hload
                 | req pf w run _ IH Hpf Hrun
                 | req pf w _ IH Hpf
                 | req pf w _ IH Hpf].
  - by eapply load_storable.
  - by eapply register_storable.
  - by apply shuffle_storable.
  - by apply reopen_storable.
Qed.

(** C4.  For every world the server can reach (from startup, with or
    without a store file, through register, shuffle and reopen, whatever
    the requests and failures), a write of the state that succeeds,
    followed by a load of the file it leaves into a fresh process, gives
    a state with the same participants in the same order, each with the
    same token, name, [assignmentToken] and [registeredAt], and the same
    three flags.  The loaded state is the persisted one with every
    [ipAddress] trimmed and cut to 128 code units. *)
Theorem C4_persist_then_load_is_identity config w o now' :
  reachable config w ->
  ~ persist_fails o ->
  let written := persistState (memory w) o (disk w) in
  snd written = true
  /\ exists loaded,
       loadPersistedState now' None (fst written) initial_state = Started loaded
       /\ state_view loaded = state_view (memory w)
       /\ JsMap.keys (participants loaded) = JsMap.keys (participants (memory w))
       /\ loaded = normalize_ips (memory w).
Proof.
  intros Hreach Hok written. subst written.
  pose proof (reachable_storable config w Hreach) as Hst.
  assert (Hwritten : snd (persistState (memory w) o (disk w)) = true)
    by (by apply persistState_fulfils).
  split; [done|]. exists (normalize_ips (memory w)). split_and!.
  - apply load_stringify; [done|]. by apply persistState_success_store.
  - apply state_view_normalize_ips.
  - simpl. apply JsMapFacts.keys_for_each_value.
  - done.
Qed.

End Claims.

(** * The claims on the example data *)

Lemma example_world_ok : registry_ok (participants (memory example_world)).
Proof. split; compute_done. Qed.

Lemma example_old_world_ok : registry_ok (participants (memory example_old_world)).
Proof. split; compute_done. Qed.

Lemma example_platform_ok o : platform_ok (example_platform o).
Proof. split; compute_done. Qed.

Lemma example_old_world_reachable : reachable example_config example_old_world.
Proof.
  apply (reach_start example_config "2024-12-01T10:00:00.000Z" None example_old_disk).
  - done.
  - vm_compute. reflexivity.
Qed.

Lemma C1_witness :
  let run := shuffle example_config example_admin (example_platform example_io_ok)
                     example_world in
  registry_ok (participants (memory example_world))
  /\ status (reply run) = 200
  /\ (forall p, p ∈ JsMap.values (participants (memory (final run))) ->
        exists r, assignmentToken p = Some r /\ r <> token p)
  /\ (forall t, t ∈ JsMap.keys (participants (memory (final run))) ->
        exists visited,
          walk (memory (final run)) 3 t = Some <$> visited
          /\ NoDup visited
          /\ visited ≡ₚ JsMap.keys (participants (memory (final run)))
          /\ follow (memory (final run)) 3 t = Some t).
Proof.
  intros run.
  assert (Hstatus : status (reply run) = 200) by (vm_compute; reflexivity).
  pose proof (C1_successful_shuffle_is_one_cycle
                example_config example_admin (example_platform example_io_ok)
                example_world example_world_ok Hstatus) as (_ & _ & Hself & Hcycle & _).
  split; [apply example_world_ok|]. split; [exact Hstatus|]. split; [exact Hself|].
  exact Hcycle.
Defined.

Lemma C2_witness :
  assignmentsReady (memory example_old_world) = true
  /\ exists run,
       register example_join (example_platform example_io_ok) example_old_world = Some run
       /\ status (reply run) = 201
       /\ all_unassigned (memory (final run))
       /\ assignmentsReady (memory (final run)) = false.
Proof.
  split; [reflexivity|]. eexists. split; [vm_compute; reflexivity|].
  match goal with
  | |- status (reply ?r) = 201 /\ _ =>
      assert (Hrun : register example_join (example_platform example_io_ok)
                              example_old_world = Some r) by (vm_compute; reflexivity);
      assert (Hstatus : status (reply r) = 201) by reflexivity;
      destruct (C2_registration_invalidates_assignments
                  example_join (example_platform example_io_ok) example_old_world r
                  eq_refl Hrun Hstatus) as (t & n & _ & _ & _ & Hclear & Hready & _)
  end.
  split; [exact Hstatus|]. split; [exact Hclear | exact Hready].
Defined.

Lemma C3_witness :
  let run := shuffle example_config example_admin (example_platform example_io_failing)
                     example_world in
  registry_ok (participants (memory example_world))
  /\ persist_fails example_io_failing
  /\ wrote example_world run
  /\ rolled_back example_world run.
Proof.
  intros run.
  assert (Hfails : persist_fails (io (example_platform example_io_failing)))
    by (right; reflexivity).
  assert (Hwrote : wrote example_world run)
    by (unfold wrote; vm_compute; discriminate).
  split; [apply example_world_ok|]. split; [exact Hfails|]. split; [exact Hwrote|].
  exact (proj1 (proj2 (C3_failed_write_rolls_back
                         example_config example_admin
                         (example_platform example_io_failing) example_world
                         example_world_ok Hfails)) Hwrote).
Defined.

Lemma C4_witness :
  let written := persistState (memory example_old_world) example_io_ok
                              (disk example_old_world) in
  reachable example_config example_old_world
  /\ ~ persist_fails example_io_ok
  /\ snd written = true
  /\ exists loaded,
       loadPersistedState "2025-01-01T00:00:00.000Z" None (fst written) initial_state
       = Started loaded
       /\ state_view loaded = state_view (memory example_old_world).
Proof.
  intros written.
  assert (Hok : ~ persist_fails example_io_ok) by (intros [H|H]; [by apply H | discriminate H]).
  destruct (C4_persist_then_load_is_identity
              example_config example_old_world example_io_ok "2025-01-01T00:00:00.000Z"
              example_old_world_reachable Hok) as (Hwritten & loaded & Hload & Hview & _).
  split; [apply example_old_world_reachable|]. split; [exact Hok|].
  split; [exact Hwritten|]. exists loaded. split; [exact Hload | exact Hview].
Defined.

Lemma C5_witness :
  let run := shuffle example_config example_admin (example_platform example_io_ok)
                     example_solo_world in
  JsMap.size (participants (memory example_solo_world)) < 2
  /\ final run = example_solo_world
  /\ calls (disk (final run)) = calls (disk example_solo_world)
  /\ status (reply run) <> 200.
Proof.
  intros run.
  assert (Hsize : JsMap.size (participants (memory example_solo_world)) < 2)
    by (vm_compute; lia).
  destruct (C5_shuffle_needs_two_participants
              example_config example_admin (example_platform example_io_ok)
              example_solo_world Hsize) as (Hfinal & Hcalls & _ & _ & _ & Hstatus).
  split; [exact Hsize|]. split; [exact Hfinal|]. split; [exact Hcalls | exact Hstatus].
Defined.

Lemma C6_witness :
  (exists run new_token,
     register example_join (example_platform example_io_ok) example_world = Some run
     /\ (new_token ∉ JsMap.keys (participants (memory example_world)))
     /\ reply run = {| status := 201; body := Registered new_token "Doctor" false |})
  /\ (exists run,
        register example_unnameable (example_platform example_io_ok) example_world
        = Some run
        /\ reply run = {| status := 500; body := Uncaught "TypeError" |}
        /\ final run = example_world).
Proof.
  split.
  - destruct (C6_register_outcomes example_join (example_platform example_io_ok)
                example_world) as (_ & _ & _ & Hvalid & _).
    destruct (Hvalid (JObj [("name", JStr "  Doctor ")]) "Doctor" eq_refl eq_refl eq_refl)
      as [_ Hgood].
    destruct (Hgood ltac:(discriminate) ltac:(vm_compute; lia)
                    "1b4e28ba-2fa1-11d2-883f-0016d3cca427"
                    ltac:(compute_done) ltac:(compute_done))
      as (run & new_token & Hrun & Hfresh & Hok & _).
    exists run, new_token. split; [exact Hrun|]. split; [exact Hfresh|].
    apply Hok. intros [H|H]; [by apply H | discriminate H].
  - destruct (C6_register_outcomes example_unnameable (example_platform example_io_ok)
                example_world) as (_ & _ & Hthrows & _).
    exact (Hthrows (JObj [("name", JObj [("toString", JNum 1%Z)])])
                   eq_refl eq_refl eq_refl).
Defined.

(** The claim C6 promises success whenever registration is open and the
    name is valid; with a valid name, registration open and a free token,
    the handler answers 500 when the write fails. *)
Lemma C6_counterexample :
  registrationOpen (memory example_world) = true
  /\ requested_name (JObj [("name", JStr "  Doctor ")] : json Z) = Some "Doctor"
  /\ createUniqueToken (participants (memory example_world))
                        (uuids (example_platform example_io_failing))
     = Some "1b4e28ba2fa111d2883f0016d3cca427"
  /\ exists run,
       register example_join (example_platform example_io_failing) example_world = Some run
       /\ reply run = {| status := 500;
                         body := Text "Unable to save registration. Try again." |}
       /\ memory (final run) = memory example_world.
Proof.
  split; [reflexivity|]. split; [reflexivity|]. split; [reflexivity|].
  eexists. split; [vm_compute; reflexivity|]. split; reflexivity.
Qed.

Lemma C7_witness :
  files example_mixed_disk !! PARTICIPANTS_FILE = Some (JsonText example_mixed_store)
  /\ is_object example_mixed_store = true
  /\ field "participants" example_mixed_store = Some (JArr example_mixed_records)
  /\ Forall coercible example_mixed_records
  /\ exists sanitized,
       loadPersistedState "2024-12-01T10:00:00.000Z" None example_mixed_disk initial_state
       = Started (restoreState sanitized)
       /\ Persisted.participants sanitized
          = spec_participants "2024-12-01T10:00:00.000Z" example_mixed_records.
Proof.
  assert (Hfile : files example_mixed_disk !! PARTICIPANTS_FILE
                  = Some (JsonText example_mixed_store)) by (vm_compute; reflexivity).
  assert (Hco : Forall coercible example_mixed_records)
    by (repeat constructor; eexists; reflexivity).
  destruct (C7_load_validates_each_record
              "2024-12-01T10:00:00.000Z" example_mixed_disk example_mixed_store
              example_mixed_records Hfile eq_refl eq_refl Hco)
    as (sanitized & _ & Hload & Hkept & _).
  split; [exact Hfile|]. split; [reflexivity|]. split; [reflexivity|]. split; [exact Hco|].
  exists sanitized. split; [exact Hload | exact Hkept].
Defined.

(** The claim C7 has every record without a non-empty token dropped; the
    fourth record of the example has [null] for a token and is kept, as the
    participant with token ["null"]. *)
Lemma C7_counterexample :
  field "token" (JObj [("token", JNull); ("name", JStr "Kal'tsit")] : json Z) = Some JNull
  /\ example_mixed_records !! 3 = Some (JObj [("token", JNull); ("name", JStr "Kal'tsit")])
  /\ exists st,
       loadPersistedState "2024-12-01T10:00:00.000Z" None example_mixed_disk initial_state
       = Started st
       /\ JsMap.get "null" (participants st)
          = Some {| token := "null"; name := "Kal'tsit"; assignmentToken := None;
                    registeredAt := "2024-12-01T10:00:00.000Z"; ipAddress := None |}.
Proof.
  split; [reflexivity|]. split; [reflexivity|].
  eexists. split; [vm_compute; reflexivity | reflexivity].
Qed.

Lemma C8_witness :
  let run := shuffle example_config example_admin (example_platform example_io_ok)
                     example_old_world in
  status (reply run) = 200 /\ flags_exclusive (memory (final run)).
Proof.
  intros run.
  assert (Hstatus : status (reply run) = 200) by (vm_compute; reflexivity).
  split; [exact Hstatus|].
  exact (proj1 (proj2 (C8_flags_exclusive_after_mutations
                         example_config example_admin (example_platform example_io_ok)
                         example_old_world)) Hstatus).
Defined.

(** The claim C8 has the two flags never both true after a restore; the
    store file of the example, which has no [registrationOpen] and
    [assignmentsReady] true, loads to a state with both true. *)
Lemma C8_counterexample :
  loadPersistedState "2024-12-01T10:00:00.000Z" None example_old_disk initial_state
  = Started (memory example_old_world)
  /\ registrationOpen (memory example_old_world) = true
  /\ assignmentsReady (memory example_old_world) = true
  /\ ~ flags_exclusive (memory example_old_world).
Proof.
  split; [vm_compute; reflexivity|]. split; [reflexivity|]. split; [reflexivity|].
  intros H. by apply H.
Qed.

Lemma C9_witness :
  let run := reopen example_config example_admin (example_platform example_io_ok)
                    example_old_world in
  status (reply run) = 200
  /\ registrationOpen (memory (final run)) = true
  /\ assignmentsReady (memory (final run)) = false
  /\ lastShuffledAt (memory (final run)) = None
  /\ all_unassigned (memory (final run)).
Proof.
  intros run.
  assert (Hstatus : status (reply run) = 200) by (vm_compute; reflexivity).
  destruct (C9_reopen_resets_and_is_idempotent
              example_config example_admin (example_platform example_io_ok)
              example_old_world Hstatus) as (Hopen & Hready & Hlast & Hclear & _).
  split; [exact Hstatus|]. split; [exact Hopen|]. split; [exact Hready|].
  split; [exact Hlast | exact Hclear].
Defined.

Lemma C10_witness :
  exists run,
    register example_join (example_platform example_io_ok) example_world = Some run
    /\ status (reply run) = 201
    /\ lastShuffledAt (memory (final run)) = None
    /\ all_unassigned (memory (final run))
    /\ registrationOpen (memory (final run)) = registrationOpen (memory example_world).
Proof.
  eexists. split; [vm_compute; reflexivity|].
  match goal with
  | |- status (reply ?r) = 201 /\ _ =>
      assert (Hrun : register example_join (example_platform example_io_ok)
                              example_world = Some r) by (vm_compute; reflexivity);
      assert (Hstatus : status (reply r) = 201) by reflexivity;
      destruct (C10_registration_resets_unconditionally
                  example_join (example_platform example_io_ok) example_world r
                  Hrun Hstatus) as (t & n & _ & Hlast & Hclear & _ & _ & Hopen & _)
  end.
  split; [exact Hstatus|]. split; [exact Hlast|]. split; [exact Hclear | exact Hopen].
Defined.

(** Where [String] throws on a token, the whole load is fatal: the case the
    statement of C7 sets aside. *)
Lemma load_fatal_when_String_throws :
  ~ coercible (JObj [ ("token", JObj [("toString", JNum 1%Z)]); ("name", JStr "Amiya") ])
  /\ loadPersistedState "2024-12-01T10:00:00.000Z" None example_unreadable_disk initial_state
     = Fatal "TypeError".
Proof.
  split; [|vm_compute; reflexivity].
  intros [[text Htext] _]. discriminate Htext.
Qed.

(** * Further properties of the server *)

(** ** The registry across requests *)





Section Lifecycle.

Context {number : Type} `{!JsNumber number}.
Implicit Types (w : World number) (pf : Platform number) (req : Request number).
Implicit Types (config : AppConfig).

(** X1.  In every world the server can reach, no two participants share a
    token: the keys of the registry are pairwise distinct, so are the
    [token] fields of the participants, and each participant is stored
    under its own token. *)
Theorem tokens_unique_in_reachable_worlds config w :
  reachable config w ->
  NoDup (JsMap.keys (participants (memory w)))
  /\ NoDup (token <$> JsMap.values (participants (memory w)))
  /\ (forall k p, JsMap.get k (participants (memory w)) = Some p -> token p = k).
Proof.
  intros Hreach. destruct (reachable_storable config w Hreach) as ((Hnd & Hkeyed) & _).
  assert (Htok : token <$> JsMap.values (participants (memory w))
                 = JsMap.keys (participants (memory w))).
  { unfold JsMap.values, JsMap.keys. rewrite <- list_fmap_compose.
    apply list_fmap_ext. intros i e He. simpl.
    unfold keyed in Hkeyed. rewrite Forall_forall in Hkeyed.
    apply Hkeyed. by eapply list_elem_of_lookup_2. }
  split_and!; [done | by rewrite Htok |].
  intros k p Hget. clear -Hget Hkeyed.
  induction (participants (memory w)) as [|[k' q] m IH]; [done|].
  apply Forall_cons in Hkeyed as [Hk Hkeyed]. simpl in *.
  destruct (String.eqb_spec k' k); [by simplify_eq | by apply IH].
Qed.



(** X4.  The store file follows the variables, for a request that is
    handled alone: no other request is in flight between its start and
    its answer, so that its write runs at the call of [persistState] and
    the world it ends in is the one it made.  From a registry as the
    program builds it, such a register, shuffle or reopen request that is
    answered 2xx leaves the store file holding the snapshot of the
    variables; and if the store file held the snapshot of the variables
    before such a request, it does after it, however the request ends. *)
Theorem store_file_follows_memory config req pf w :
  registry_ok (participants (memory w)) ->
  (forall run, register req pf w = Some run ->
     (status (reply run) = 201 \/ in_sync w) -> in_sync (final run))
  /\ (status (reply (shuffle config req pf w)) = 200 \/ in_sync w ->
      in_sync (final (shuffle config req pf w)))
  /\ (status (reply (reopen config req pf w)) = 200 \/ in_sync w ->
      in_sync (final (reopen config req pf w))).
Proof.
  intros Hok.
  assert (Hwritten : forall st1 disk1,
    persistState st1 (io pf) (disk w) = (disk1, true) ->
    in_sync {| memory := st1; disk := disk1 |}).
  { intros st1 disk1 Hpersist. unfold in_sync. simpl.
    pose proof (persistState_success_store st1 (io pf) (disk w)) as H.
    rewrite Hpersist in H. by apply H. }
  assert (Hkept : forall st1 disk1,
    persistState st1 (io pf) (disk w) = (disk1, false) -> in_sync w ->
    in_sync {| memory := restoreState (captureState (memory w)); disk := disk1 |}).
  { intros st1 disk1 Hpersist Hsync. unfold in_sync in *. simpl.
    rewrite restore_capture by done.
    pose proof (persistState_failure_keeps_store st1 (io pf) (disk w)) as H.
    rewrite Hpersist in H. simpl in H. by rewrite H. }
  split_and!.
  - intros run Hrun Hwhy.
    destruct (register_cases req pf w run Hrun) as
      [(-> & _ & _ & Hs) | [(-> & _ & _ & Hs & _) | Hcase]].
    + destruct Hwhy as [H|H]; [rewrite Hs in H; discriminate | done].
    + destruct Hwhy as [H|H]; [|done].
      destruct Hs as [Hs|Hs]; rewrite Hs in H; discriminate.
    + destruct Hcase as (body & new_token & text & disk1 & ok & Hcase). simpl in Hcase.
      destruct Hcase as (_ & _ & _ & _ & _ & _ & Hpersist & _ & Hfinal).
      destruct ok; destruct Hfinal as [-> Hr]; [by eapply Hwritten|].
      destruct Hwhy as [H|H]; [rewrite Hr in H; discriminate | by eapply Hkept].
  - intros Hwhy.
    destruct (shuffle_cases config req pf w) as
      [(-> & _ & _ & Hr) | [(-> & _ & _ & _ & Hr) | (disk1 & ok & Hcase)]].
    1,2: destruct Hwhy as [H|H]; [rewrite Hr in H; discriminate | done].
    simpl in Hcase. destruct Hcase as (_ & _ & Hpersist & _ & Hfinal).
    destruct ok; destruct Hfinal as [-> Hr]; [by eapply Hwritten|].
    destruct Hwhy as [H|H]; [rewrite Hr in H; discriminate | by eapply Hkept].
  - intros Hwhy.
    destruct (reopen_cases config req pf w) as [(-> & _ & _ & Hr) | (disk1 & ok & Hcase)].
    { destruct Hwhy as [H|H]; [rewrite Hr in H; discriminate | done]. }
    simpl in Hcase. destruct Hcase as (_ & Hpersist & _ & Hfinal).
    destruct ok; destruct Hfinal as [-> Hr]; [by eapply Hwritten|].
    destruct Hwhy as [H|H]; [rewrite Hr in H; discriminate | by eapply Hkept].
Qed.

End Lifecycle.

(** ** The writer and the snapshots *)

Section PersistFrame.

Context {number : Type} `{!JsNumber number}.

(** X5.  [persistState] touches two paths only.  Every file other than the
    store file and the temporary file of the call is left as it was; the
    store file is never written in place, since every file-system call of
    [persistState] is a write of the temporary file, a rename of it over
    the store file, or its removal; and the temporary file is gone after a
    write that succeeds, and after one that fails if the removal works. *)
Theorem persistState_touches_only_its_files st (o : Io (number := number)) fs :
  let tmp := tempPath (temp_uuid o) in
  let fs' := fst (persistState st o fs) in
  (forall path, path <> PARTICIPANTS_FILE -> path <> tmp ->
     files fs' !! path = files fs !! path)
  /\ (exists new_calls,
        calls fs' = (calls fs ++ new_calls)%list /\ Forall (temp_call tmp) new_calls)
  /\ (snd (persistState st o fs) = true -> files fs' !! tmp = None)
  /\ (snd (persistState st o fs) = false -> rm_ok o = true -> files fs' !! tmp = None).
Proof.
  intros tmp fs'. subst tmp fs'.
  pose proof (tempPath_not_store (temp_uuid o)) as Hne.
  unfold persistState, writeFile, rename, rm_force.
  destruct o as [u [|[left|]] [|] [|]]; simpl in *;
    rewrite ?lookup_insert_eq; simpl; split_and!; try done.
  all: try (intros path Hp Ht;
            rewrite ?lookup_insert_ne, ?lookup_delete_ne, ?lookup_insert_ne by congruence;
            done).
  all: try (eexists; rewrite <- ?app_assoc; split; [done|]; by repeat constructor).
  all: intros; rewrite ?lookup_insert_ne by congruence; by rewrite lookup_delete_eq.
Qed.

End PersistFrame.

Lemma get_set {V} k k' (v : V) m :
  JsMap.get k (JsMap.set k' v m) = if String.eqb k' k then Some v else JsMap.get k m.
Proof.
  induction m as [|[k0 v0] m IH]; simpl.
  - done.
  - destruct (String.eqb_spec k0 k') as [->|Hne]; simpl.
    + destruct (String.eqb_spec k' k); done.
    + rewrite IH. destruct (String.eqb_spec k0 k) as [->|Hne0]; [|done].
      destruct (String.eqb_spec k' k); [congruence | done].
Qed.

(** X6.  [restoreState] stores each token once.  A token that several
    records of the snapshot carry is kept with the fields of the last of
    them; a token that no record carries is absent.  The registry it
    builds never has more entries than the snapshot has records. *)
Theorem restoreState_keeps_last_record snapshot k :
  JsMap.get k (participants (restoreState snapshot))
  = restoreParticipant
      <$> last (filter (fun e => Persisted.token e = k) (Persisted.participants snapshot))
  /\ NoDup (JsMap.keys (participants (restoreState snapshot)))
  /\ JsMap.size (participants (restoreState snapshot))
     <= length (Persisted.participants snapshot).
Proof.
  unfold restoreState. simpl. split_and!.
  - induction (Persisted.participants snapshot) as [|e l IH] using rev_ind; [done|].
    rewrite fold_left_app. simpl. rewrite get_set, filter_app, IH.
    rewrite filter_cons, filter_nil.
    destruct (String.eqb_spec (Persisted.token e) k) as [Heq|Hne].
    + rewrite decide_True by done. by rewrite last_snoc.
    + rewrite decide_False by done. by rewrite app_nil_r.
  - apply (restoreState_registry_ok snapshot).
  - induction (Persisted.participants snapshot) as [|e l IH] using rev_ind; [simpl; lia|].
    rewrite fold_left_app, length_app. simpl.
    set (m := fold_left _ l JsMap.empty) in *.
    assert (JsMap.size (JsMap.set (Persisted.token e) (restoreParticipant e) m)
            <= S (JsMap.size m)); [|lia].
    clear. unfold JsMap.size. induction m as [|[k0 v0] m IH]; simpl; [lia|].
    destruct (String.eqb_spec k0 (Persisted.token e)); simpl; lia.
Qed.

(** X7.  A snapshot whose records have pairwise distinct tokens comes back
    unchanged from [restoreState] followed by [captureState]. *)
Theorem capture_restore_distinct snapshot :
  NoDup (Persisted.token <$> Persisted.participants snapshot) ->
  captureState (restoreState snapshot) = snapshot.
Proof.
  intros Hnd. destruct snapshot as [l ready last open]. unfold captureState. simpl in *.
  f_equal. rewrite (restore_distinct l JsMap.empty) by done. simpl.
  unfold JsMap.values. rewrite <- !list_fmap_compose.
  rewrite <- (list_fmap_id l) at 2. apply list_fmap_ext.
  intros i e _. simpl. apply capture_restoreParticipant.
Qed.

(** ** The assignments a shuffle leaves *)


Section Receivers.

Variables (m : JsMap.t Participant) (shuffled : list string) (st' : State).
Hypothesis Hok : registry_ok m.
Hypothesis Hperm : shuffled ≡ₚ JsMap.keys m.
Hypothesis Hst' : participants st' = assign_receivers shuffled m.



Lemma receiver_is_another t :
  2 <= length shuffled -> t ∈ JsMap.keys m ->
  exists r, receiver st' t = Some r /\ r <> t /\ r ∈ JsMap.keys m.
Proof.
  intros Hlen Ht. rewrite <- Hperm in Ht.
  apply list_elem_of_lookup in Ht as [i Hi].
  pose proof (lookup_lt_Some _ _ _ Hi) as Hlt.
  rewrite (receiver_assigned m shuffled st' Hok Hperm Hst' i t Hi).
  pose proof (Nat.mod_upper_bound (i + 1) (length shuffled)) as Hub.
  destruct (shuffled !! ((i + 1) mod length shuffled)) as [r|] eqn:Hr.
  2:{ apply lookup_ge_None in Hr. lia. }
  exists r. split; [done|]. split.
  - intros ->.
    pose proof (NoDup_lookup _ _ _ _ (shuffled_NoDup m shuffled Hok Hperm) Hr Hi) as Heq.
    destruct (decide (i + 1 < length shuffled)) as [Hs|Hs].
    + rewrite Nat.mod_small in Heq by done. lia.
    + assert (i + 1 = length shuffled) as Hfull by lia.
      rewrite Hfull, Nat.Div0.mod_same in Heq. lia.
  - rewrite <- Hperm. by eapply list_elem_of_lookup_2.
Qed.

End Receivers.

Section AfterShuffle.

Context {number : Type} `{!JsNumber number}.
Implicit Types (w : World number) (pf : Platform number) (req : Request number).
Implicit Types (config : AppConfig).

(** What a shuffle answered 200 did. *)
Lemma shuffle_success config req pf w :
  status (reply (shuffle config req pf w)) = 200 ->
  exists shuffled,
    shuffled ≡ₚ JsMap.keys (participants (memory w))
    /\ 2 <= length shuffled
    /\ memory (final (shuffle config req pf w))
       = {| participants := assign_receivers shuffled (participants (memory w));
            assignmentsReady := true;
            lastShuffledAt := Some (now pf);
            registrationOpen := false |}.
Proof.
  intros Hstatus.
  destruct (shuffle_cases config req pf w) as
    [(_ & _ & _ & Hr) | [(_ & _ & _ & _ & Hr) | (disk1 & ok & Hcase)]].
  1,2: rewrite Hr in Hstatus; discriminate.
  simpl in Hcase. destruct Hcase as (_ & Hn & _ & _ & Hfinal).
  destruct ok; destruct Hfinal as [Hfinal Hr]; [|rewrite Hr in Hstatus; discriminate].
  eexists. split; [apply fisher_yates_Permutation|]. split; [|by rewrite Hfinal].
  rewrite fisher_yates_Permutation. unfold JsMap.size, JsMap.keys in *.
  by rewrite length_fmap.
Qed.


(** X9.  With exactly two participants a shuffle that succeeds assigns
    each to the other. *)
Theorem two_participants_give_to_each_other config req pf w a b :
  registry_ok (participants (memory w)) ->
  JsMap.keys (participants (memory w)) = [a; b] ->
  status (reply (shuffle config req pf w)) = 200 ->
  let st' := memory (final (shuffle config req pf w)) in
  receiver st' a = Some b /\ receiver st' b = Some a.
Proof.
  intros Hok Hkeys Hstatus st'. subst st'.
  destruct (shuffle_success config req pf w Hstatus) as (shuffled & Hperm & Hlen & Hmem).
  assert (Hp : participants (memory (final (shuffle config req pf w)))
               = assign_receivers shuffled (participants (memory w))) by (by rewrite Hmem).
  pose proof (receiver_is_another _ shuffled _ Hok Hperm Hp) as Hother.
  destruct (Hother a Hlen) as (ra & Hra & Hne_a & Hin_a); [rewrite Hkeys; left|].
  destruct (Hother b Hlen) as (rb & Hrb & Hne_b & Hin_b);
    [rewrite Hkeys; right; left|].
  rewrite Hkeys in Hin_a, Hin_b.
  rewrite Hra, Hrb.
  apply elem_of_cons in Hin_a as [->|Hin_a]; [done|].
  apply list_elem_of_singleton in Hin_a as ->.
  apply elem_of_cons in Hin_b as [->|Hin_b]; [done|].
  apply list_elem_of_singleton in Hin_b as ->. done.
Qed.

End AfterShuffle.

(** ** The read-only routes *)



Section Pages.

Context {number : Type} `{!JsNumber number}.
Implicit Types (w : World number) (pf : Platform number) (req : Request number).
Implicit Types (config : AppConfig).



(** X12.  The count the status route reports moves by registrations
    only, for a request that is handled alone: no other request is in
    flight between its start and its answer.  From a registry as the
    program builds it, the count reported after such a registration that
    succeeds is the count reported before it plus one, and no other
    outcome of such a register, shuffle or reopen request changes it. *)
Theorem participant_count_moves_by_registrations config req pf w :
  registry_ok (participants (memory w)) ->
  let count := fun st => Status.participantCount (status_page st) in
  (forall run, register req pf w = Some run ->
     count (memory (final run))
     = if decide (status (reply run) = 201) then S (count (memory w)) else count (memory w))
  /\ count (memory (final (shuffle config req pf w))) = count (memory w)
  /\ count (memory (final (reopen config req pf w))) = count (memory w).
Proof.
  intros Hok count. subst count. simpl.
  assert (Hsize : forall m m' : JsMap.t Participant,
            JsMap.keys m' = JsMap.keys m -> JsMap.size m' = JsMap.size m).
  { intros m m' Hk. unfold JsMap.size, JsMap.keys in *.
    by rewrite <- (length_fmap fst m'), Hk, length_fmap. }
  split_and!.
  - intros run Hrun.
    destruct (register_cases req pf w run Hrun) as
      [(-> & _ & _ & Hs) | [(-> & _ & _ & Hs & _) | Hcase]].
    + rewrite decide_False; [done | by rewrite Hs].
    + rewrite decide_False; [done|]. by destruct Hs as [-> | ->].
    + destruct Hcase as (body & new_token & text & disk1 & ok & Hcase). simpl in Hcase.
      destruct Hcase as (_ & _ & _ & _ & _ & Htok & _ & _ & Hfinal).
      destruct ok; destruct Hfinal as [-> ->]; cbn [final memory reply status].
      * apply createUniqueToken_fresh in Htok as [Hfresh _].
        rewrite (register_mutation_participants _ _ _ _ _ Hfresh).
        unfold JsMap.size, JsMap.for_each_value. rewrite length_app, length_fmap. simpl. lia.
      * by rewrite restore_capture.
  - destruct (shuffle_cases config req pf w) as
      [(-> & _) | [(-> & _) | (disk1 & ok & Hcase)]]; [done..|].
    simpl in Hcase. destruct Hcase as (_ & _ & _ & _ & Hfinal).
    destruct ok; destruct Hfinal as [-> _]; cbn [final memory];
      [|by rewrite restore_capture].
    apply Hsize. simpl. unfold assign_receivers, forEach_indexed.
    by rewrite keys_forEach_from.
  - destruct (reopen_cases config req pf w) as [(-> & _) | (disk1 & ok & Hcase)]; [done|].
    simpl in Hcase. destruct Hcase as (_ & _ & _ & Hfinal).
    destruct ok; destruct Hfinal as [-> _]; cbn [final memory];
      [|by rewrite restore_capture].
    apply Hsize. simpl. by rewrite JsMapFacts.keys_for_each_value.
Qed.

End Pages.

(** ** The admin listing *)

Section ListingFacts.

Variable localeCompare : string -> string -> Z.

Let before (x y : Listing.entry) : Prop :=
  (localeCompare (Listing.registeredAt x) (Listing.registeredAt y) <= 0)%Z.

Lemma insert_sorted_Permutation x l : insert_sorted localeCompare x l ≡ₚ x :: l.
Proof.
  induction l as [|y l IH]; simpl; [done|].
  destruct (localeCompare _ _ <=? 0)%Z; [done|].
  rewrite IH. apply Permutation_swap.
Qed.

Lemma sort_by_registeredAt_Permutation l : sort_by_registeredAt localeCompare l ≡ₚ l.
Proof.
  induction l as [|x l IH]; simpl; [done|].
  by rewrite insert_sorted_Permutation, IH.
Qed.

Lemma insert_sorted_Sorted x l :
  (forall a b, (0 < localeCompare a b -> localeCompare b a <= 0)%Z) ->
  Sorted before l -> Sorted before (insert_sorted localeCompare x l).
Proof.
  intros Htotal. induction 1 as [|y l Hl IH Hhd]; simpl.
  - by repeat constructor.
  - destruct (localeCompare _ _ <=? 0)%Z eqn:Hcmp.
    + apply Z.leb_le in Hcmp. constructor; [by constructor|]. by constructor.
    + apply Z.leb_gt in Hcmp. constructor; [done|].
      destruct Hhd as [|z l' Hyz]; simpl.
      * constructor. by apply Htotal.
      * destruct (localeCompare _ _ <=? 0)%Z; constructor; [by apply Htotal | done].
Qed.

Lemma sort_by_registeredAt_Sorted l :
  (forall a b, (0 < localeCompare a b -> localeCompare b a <= 0)%Z) ->
  Sorted before (sort_by_registeredAt localeCompare l).
Proof.
  intros Htotal. induction l as [|x l IH]; simpl; [constructor|].
  by apply insert_sorted_Sorted.
Qed.

(** X13.  Whatever the collation, the admin listing shows every
    participant exactly once: its entries are a rearrangement of the
    participants' entries, and [participantCount] is their number. *)
Theorem listing_shows_everyone_once st :
  Listing.participants (listing localeCompare st)
  ≡ₚ listing_entry <$> JsMap.values (participants st)
  /\ length (Listing.participants (listing localeCompare st))
     = Listing.participantCount (listing localeCompare st).
Proof.
  simpl. split; [apply sort_by_registeredAt_Permutation|].
  rewrite sort_by_registeredAt_Permutation. unfold JsMap.values, JsMap.size.
  by rewrite !length_fmap.
Qed.

(** X14.  When the collation is a total preorder (of two texts one is
    never after the other both ways, and the comparison is transitive),
    the admin listing is in ascending order of [registeredAt]: no entry
    comes after an entry that follows it in the list. *)
Theorem listing_is_ordered_by_registeredAt st :
  (forall a b, (0 < localeCompare a b -> localeCompare b a <= 0)%Z) ->
  (forall a b c, (localeCompare a b <= 0 -> localeCompare b c <= 0 ->
                  localeCompare a c <= 0)%Z) ->
  StronglySorted
    (fun x y => (localeCompare (Listing.registeredAt x) (Listing.registeredAt y) <= 0)%Z)
    (Listing.participants (listing localeCompare st)).
Proof.
  intros Htotal Htrans. apply Sorted_StronglySorted.
  - intros x y z. apply Htrans.
  - by apply sort_by_registeredAt_Sorted.
Qed.

End ListingFacts.

Section ListingAfter.

Context {number : Type} `{!JsNumber number}.
Implicit Types (w : World number) (pf : Platform number) (req : Request number).
Implicit Types (config : AppConfig).


End ListingAfter.

(** ** Texts *)

Lemma trimEnd_twice s : trimEnd (trimEnd s) = trimEnd s.
Proof.
  induction s as [|c s IH]; simpl; [done|].
  destruct (trimEnd s) as [|c' kept] eqn:Hs.
  - destruct (is_whitespace c) eqn:Hc; simpl; [done|]. by rewrite Hc.
  - simpl in *. by rewrite IH.
Qed.

Lemma trimEnd_keeps_head c s :
  is_whitespace c = false -> exists rest, trimEnd (String c s) = String c rest.
Proof.
  intros Hc. simpl. destruct (trimEnd s); [|eauto]. rewrite Hc. eauto.
Qed.

Lemma trimStart_head s :
  trimStart s = EmptyString
  \/ exists c rest, trimStart s = String c rest /\ is_whitespace c = false.
Proof.
  induction s as [|c s IH]; simpl; [by left|].
  destruct (is_whitespace c) eqn:Hc; [done|]. right. eauto.
Qed.

Lemma trimStart_settled c s :
  is_whitespace c = false -> trimStart (String c s) = String c s.
Proof. intros Hc. simpl. by rewrite Hc. Qed.

Lemma trim_twice s : trim (trim s) = trim s.
Proof.
  unfold trim. destruct (trimStart_head s) as [->|(c & rest & -> & Hc)]; [done|].
  destruct (trimEnd_keeps_head c rest Hc) as [rest' Hrest].
  rewrite Hrest, (trimStart_settled c rest' Hc), <- Hrest. apply trimEnd_twice.
Qed.

Lemma falsy_false s : falsy s = false <-> s <> "".
Proof. destruct s; simpl; split; done. Qed.

(** ** Configuration and authorisation *)

Section Authorisation.

Context {number : Type} `{!JsNumber number}.
Implicit Types (w : World number) (pf : Platform number) (req : Request number).
Implicit Types (config : AppConfig).

Lemma authorizeAdmin_true config req :
  authorizeAdmin config req = true <->
  exists props value,
    json_body req = Some (JObj props)
    /\ own_property "password" props = Some (JStr value)
    /\ trim value <> ""
    /\ trim value = adminPassword config.
Proof.
  unfold authorizeAdmin, extractPasswordFromRequest. split.
  - destruct (json_body req) as [[| | | | |props]|]; simpl; try done.
    destruct (own_property "password" props) as [[| | |value| |]|] eqn:Hpw; try done.
    destruct (falsy (trim value)) eqn:Hf; [done|].
    intros Heq%String.eqb_eq. exists props, value. split_and!; try done.
    by apply falsy_false.
  - intros (props & value & -> & Hpw & Hne & Heq). simpl. rewrite Hpw.
    apply falsy_false in Hne. rewrite Hne. by apply String.eqb_eq.
Qed.

(** X16.  The admin routes act only on the password.  A request is
    authorised exactly when its body is a JSON object whose [password] is
    a text that, trimmed, is not empty and equals the configured password.
    Any other request gets 401 from shuffle and reopen, which leave the
    variables, the files and the file-system calls as they were, and gets
    no listing. *)
Theorem admin_routes_need_the_password localeCompare config req pf w :
  (authorizeAdmin config req = true <->
   exists props value,
     json_body req = Some (JObj props)
     /\ own_property "password" props = Some (JStr value)
     /\ trim value <> ""
     /\ trim value = adminPassword config)
  /\ (authorizeAdmin config req = false ->
      final (shuffle config req pf w) = w
      /\ status (reply (shuffle config req pf w)) = 401
      /\ final (reopen config req pf w) = w
      /\ status (reply (reopen config req pf w)) = 401
      /\ participants_listing localeCompare config req (memory w) = None).
Proof.
  split; [apply authorizeAdmin_true|].
  intros Hno. unfold shuffle, reopen, participants_listing. rewrite Hno. by simpl.
Qed.

(** X17.  [loadConfig] succeeds exactly when the configuration file holds
    a JSON object whose [adminPassword] is a text that is not blank, and
    then the configured password is that text trimmed.  A request whose
    body is an object with a text [password] is then authorised exactly
    when its password and the one in the file are equal once both are
    trimmed. *)
Theorem loadConfig_trims_the_password (fs : FileSystem number) config :
  (loadConfig fs = inr config <->
   exists props secret,
     files fs !! CONFIG_FILE = Some (JsonText (JObj props))
     /\ own_property "adminPassword" props = Some (JStr secret)
     /\ trim secret <> ""
     /\ config = {| adminPassword := trim secret |})
  /\ (forall props secret req body value,
        files fs !! CONFIG_FILE = Some (JsonText (JObj props)) ->
        own_property "adminPassword" props = Some (JStr secret) ->
        loadConfig fs = inr config ->
        json_body req = Some (JObj body) ->
        own_property "password" body = Some (JStr value) ->
        (authorizeAdmin config req = true <-> trim value = trim secret)).
Proof.
  split.
  - unfold loadConfig. split.
    + destruct (files fs !! CONFIG_FILE) as [[|raw]|]; try done.
      destruct raw as [| | | |items|props]; simpl; try done.
      destruct (own_property "adminPassword" props) as [[| | |secret| |]|] eqn:Hpw;
        try done.
      destruct (falsy (trim secret)) eqn:Hf; [done|].
      intros [= <-]. exists props, secret. split_and!; try done. by apply falsy_false.
    + intros (props & secret & -> & Hpw & Hne & ->). simpl. rewrite Hpw.
      apply falsy_false in Hne. by rewrite Hne.
  - intros props secret req body value Hfile Hsecret Hload Hbody Hvalue.
    unfold loadConfig in Hload. rewrite Hfile in Hload. simpl in Hload.
    rewrite Hsecret in Hload.
    destruct (falsy (trim secret)) eqn:Hf; [done|]. injection Hload as <-.
    rewrite authorizeAdmin_true. simpl. split.
    + intros (props' & value' & Hb & Hv & _ & Heq).
      rewrite Hbody in Hb. injection Hb as <-. rewrite Hvalue in Hv. by injection Hv as <-.
    + intros Heq. exists body, value. split_and!; try done.
      rewrite Heq. by apply falsy_false.
Qed.

End Authorisation.

(** ** Startup and tokens *)

Lemma map_throwing_is_Some {A B} (f : A -> option B) (l : list A) :
  is_Some (map_throwing f l) <-> Forall (fun x => is_Some (f x)) l.
Proof.
  induction l as [|x l IH]; simpl.
  - split; [by constructor | done].
  - rewrite Forall_cons, <- IH. destruct (f x); simpl.
    + destruct (map_throwing f l); split; try done; intros [? ?]; done.
    + split; [by intros [? ?] | by intros [[? ?] _]].
Qed.

Lemma strip_hyphens_no_hyphen s : indexOf "-" (strip_hyphens s) = None.
Proof.
  induction s as [|c s IH]; simpl; [done|].
  destruct (Ascii.eqb c "-") eqn:Hc; [done|]. simpl. by rewrite Hc, IH.
Qed.

Lemma createUniqueToken_first m draws new_token :
  createUniqueToken m draws = Some new_token ->
  exists earlier uuid later,
    draws = (earlier ++ uuid :: later)%list
    /\ new_token = randomToken uuid
    /\ Forall (fun u => randomToken u ∈ JsMap.keys m) earlier.
Proof.
  induction draws as [|u rest IH]; simpl; [done|].
  destruct (JsMap.has (randomToken u) m) eqn:Hhas.
  - intros H. destruct (IH H) as (earlier & uuid & later & -> & -> & Hall).
    exists (u :: earlier), uuid, later. split_and!; try done.
    constructor; [by apply JsMapFacts.has_true | done].
  - intros [= <-]. exists [], u, rest. split_and!; try done.
Qed.

Section Startup.

Context {number : Type} `{!JsNumber number}.
Implicit Types (w : World number) (pf : Platform number) (req : Request number).

Lemma sanitizeParticipant_is_Some now (r : json number) :
  is_Some (sanitizeParticipant now r) <-> coercible r.
Proof.
  unfold sanitizeParticipant, coercible.
  destruct (is_object r) eqn:Hobj; simpl.
  - destruct (text_field "token" r); [|split; [by intros [? ?] | by intros [[? ?] _]]].
    destruct (text_field "name" r); [|split; [by intros [? ?] | by intros [_ [? ?]]]].
    split; [done|]. intros _. by destruct (falsy s || falsy s0).
  - split; [|done]. intros _. unfold text_field, field.
    destruct r; simpl in *; try done.
Qed.

(** X18.  Startup fails on the store file exactly when it should.  With no
    store file the server starts on the initial variables.  With a store
    file that can be read, loading succeeds exactly when the text parses
    to an object whose [participants] is an array and [String] can read
    the token and the name of every record; otherwise it is fatal. *)
Theorem startup_is_fatal_exactly_on_bad_stores now (fs : FileSystem number) st0 :
  (files fs !! PARTICIPANTS_FILE = None ->
   forall read_error, loadPersistedState now read_error fs st0 = Started st0)
  /\ (forall contents,
        files fs !! PARTICIPANTS_FILE = Some contents ->
        ((exists st, loadPersistedState now None fs st0 = Started st) <->
         exists parsed records,
           contents = JsonText parsed
           /\ is_object parsed = true
           /\ field "participants" parsed = Some (JArr records)
           /\ Forall coercible records)).
Proof.
  split.
  - intros Hfile read_error. unfold loadPersistedState. by rewrite Hfile.
  - intros contents Hfile. unfold loadPersistedState. rewrite Hfile. split.
    + destruct contents as [|parsed]; [by intros [? ?]|].
      destruct (is_object parsed) eqn:Hobj; [|by intros [? ?]].
      destruct (field "participants" parsed) as [[| | | |records|]|] eqn:Hf;
        try (by intros [? ?]).
      unfold sanitize.
      destruct (map_throwing (sanitizeParticipant now) records) as [mapped|] eqn:Hmap;
        [|by intros [? ?]].
      intros _. exists parsed, records. split_and!; try done.
      assert (Hsome : is_Some (map_throwing (sanitizeParticipant now) records))
        by (by rewrite Hmap).
      apply map_throwing_is_Some in Hsome.
      eapply Forall_impl; [exact Hsome|]. intros r. apply sanitizeParticipant_is_Some.
    + intros (parsed & records & -> & Hobj & Hf & Hco). rewrite Hobj, Hf.
      destruct (map_throwing_sanitize now records Hco) as (mapped & Hmap & _).
      unfold sanitize. rewrite Hmap. eauto.
Qed.

(** X19.  The token a registration hands out.  A registration that
    succeeds returns the text of the first UUID drawn whose text without
    hyphens is not yet a key of the registry; every draw before it
    collided with a registered token; the token has no hyphen and was not
    in the registry. *)
Theorem registered_token_is_first_free_draw req pf w run :
  register req pf w = Some run ->
  status (reply run) = 201 ->
  exists new_token text earlier uuid later,
    body (reply run) = Registered new_token text false
    /\ uuids pf = (earlier ++ uuid :: later)%list
    /\ new_token = randomToken uuid
    /\ Forall (fun u => randomToken u ∈ JsMap.keys (participants (memory w))) earlier
    /\ (new_token ∉ JsMap.keys (participants (memory w)))
    /\ indexOf "-" new_token = None
    /\ JsMap.keys (participants (memory (final run)))
       = (JsMap.keys (participants (memory w)) ++ [new_token])%list.
Proof.
  intros Hrun Hstatus.
  destruct (register_cases req pf w run Hrun) as
    [(_ & _ & _ & Hs) | [(_ & _ & _ & [Hs|Hs] & _) | Hcase]].
  1,2,3: rewrite Hs in Hstatus; discriminate.
  destruct Hcase as (payload & new_token & text & disk1 & ok & Hcase). simpl in Hcase.
  destruct Hcase as (_ & _ & _ & _ & _ & Htok & _ & _ & Hfinal).
  destruct ok; destruct Hfinal as [-> Hr]; [|rewrite Hr in Hstatus; discriminate].
  destruct (createUniqueToken_first _ _ _ Htok) as (earlier & uuid & later & Hd & Hn & Ha).
  apply createUniqueToken_fresh in Htok as [Hfresh _].
  exists new_token, text, earlier, uuid, later. rewrite Hr. cbn [final memory reply body].
  split_and!; try done.
  - rewrite Hn. apply strip_hyphens_no_hyphen.
  - rewrite (register_mutation_participants _ _ _ _ _ Hfresh).
    unfold JsMap.keys at 1. rewrite fmap_app.
    fold (JsMap.keys (JsMap.for_each_value (set_assignmentToken None)
                        (participants (memory w)))).
    by rewrite JsMapFacts.keys_for_each_value.
Qed.

End Startup.

(** ** The client address *)

Lemma slice0_length n s : String.length (slice0 n s) = Nat.min n (String.length s).
Proof.
  unfold slice0. revert n. induction s as [|c s IH]; intros [|n]; simpl; try done.
  by rewrite IH.
Qed.

Lemma slice0_short n s : String.length s <= n -> slice0 n s = s.
Proof.
  unfold slice0. revert n. induction s as [|c s IH]; intros [|n]; simpl; try done.
  - lia.
  - intros Hle. f_equal. apply IH. lia.
Qed.

Lemma address_like_slice t :
  t <> EmptyString -> trim t = t -> address_like (slice0 128 t).
Proof.
  intros Hne Htrim. split_and!.
  - destruct t; [done|]. unfold slice0. simpl. done.
  - rewrite slice0_length. lia.
  - rewrite slice0_length. intros Hlt. rewrite slice0_short by lia. done.
Qed.

Lemma strip_port_address_like firstEntry s :
  firstEntry <> EmptyString -> trim firstEntry = firstEntry ->
  strip_port firstEntry = Some s -> address_like s.
Proof.
  intros Hne Htrim. unfold strip_port.
  destruct (lastIndexOf ":" firstEntry) as [lastColon|];
    [|intros [= <-]; by apply address_like_slice].
  destruct (indexOf ":" firstEntry) as [firstColon|];
    [|intros [= <-]; by apply address_like_slice].
  destruct ((firstColon =? lastColon) && all_digits _);
    [|intros [= <-]; by apply address_like_slice].
  destruct (falsy (trim (slice0 lastColon firstEntry))) eqn:Hf; [done|].
  intros [= <-]. apply address_like_slice; [by apply falsy_false | apply trim_twice].
Qed.

Lemma normalizeIpCandidate_address_like value s :
  normalizeIpCandidate value = Some s -> address_like s.
Proof.
  unfold normalizeIpCandidate. destruct value as [value|]; [|done].
  destruct (falsy value); [done|].
  destruct (falsy (strip_quotes (trim value))); [done|].
  set (firstEntry := trim (hd EmptyString (split "," (strip_quotes (trim value))))).
  destruct (falsy firstEntry) eqn:Hf; [done|].
  apply falsy_false in Hf.
  assert (Htrim : trim firstEntry = firstEntry) by apply trim_twice.
  destruct (if startsWith "[" firstEntry then indexOf "]" firstEntry else None)
    as [closingIndex|].
  - destruct (falsy (trim (slice 1 closingIndex firstEntry))) eqn:Hin; [done|].
    intros [= <-]. apply address_like_slice; [by apply falsy_false | apply trim_twice].
  - by apply strip_port_address_like.
Qed.

Lemma parseForwardedHeader_address_like headerValue s :
  parseForwardedHeader headerValue = Some s -> address_like s.
Proof.
  unfold parseForwardedHeader. destruct headerValue as [headerValue|]; [|done].
  destruct (falsy headerValue); [done|].
  induction (split "," headerValue) as [|entry entries IH]; cbn [first_forwarded]; [done|].
  destruct (match_for entry) as [group|]; [|exact IH].
  destruct (normalizeIpCandidate (Some group)) as [candidate|] eqn:Hc; [|exact IH].
  intros [= <-]. by eapply normalizeIpCandidate_address_like.
Qed.

Lemma getRequestIp_address_like get s :
  getRequestIp get = Some s -> address_like s.
Proof.
  unfold getRequestIp. induction headersToCheck as [|header headers IH].
  - apply parseForwardedHeader_address_like.
  - destruct (normalizeIpCandidate (get header)) as [candidate|] eqn:Hc; [|exact IH].
    intros [= <-]. by eapply normalizeIpCandidate_address_like.
Qed.

(** X20.  The address [getRequestIp] extracts, from whichever header, is
    never the empty text and never longer than 128 code units, and unless
    it was cut at 128 it has no white space at either end; the same holds
    for [normalizeIpCandidate] and [parseForwardedHeader].  A participant
    stored with such an address of fewer than 128 code units is left
    unchanged by the normalisation [loadPersistedState] applies. *)
Theorem extracted_address_is_bounded get :
  (forall s, getRequestIp get = Some s -> address_like s)
  /\ (forall value s, normalizeIpCandidate value = Some s -> address_like s)
  /\ (forall headerValue s, parseForwardedHeader headerValue = Some s -> address_like s)
  /\ (forall p, ipAddress p = getRequestIp get ->
        (forall s, ipAddress p = Some s -> String.length s < 128) ->
        normalize_ip p = p).
Proof.
  split_and!.
  - apply getRequestIp_address_like.
  - apply normalizeIpCandidate_address_like.
  - apply parseForwardedHeader_address_like.
  - intros [tok nm asg reg [s|]] Hip Hshort; simpl in *; [|done].
    symmetry in Hip. destruct (getRequestIp_address_like get s Hip) as (Hne & Hle & Htrim).
    unfold normalize_ip. simpl. rewrite Htrim by (by apply Hshort).
    apply falsy_false in Hne. rewrite Hne. by rewrite slice0_short.
Qed.

Section ExactRoundTrip.

Context {number : Type} `{!JsNumber number}.

Lemma normalize_ips_settled st :
  Forall (fun p => forall s, ipAddress p = Some s ->
                     s <> EmptyString /\ trim s = s /\ String.length s <= 128)
         (JsMap.values (participants st)) ->
  normalize_ips st = st.
Proof.
  intros Hall. destruct st as [m ready last open]. unfold normalize_ips. simpl in *.
  f_equal. unfold JsMap.for_each_value, JsMap.values in *. rewrite Forall_fmap in Hall.
  rewrite <- (list_fmap_id m) at 2. apply list_fmap_ext.
  intros i [k p] Hi. simpl. f_equal.
  rewrite Forall_forall in Hall.
  specialize (Hall (k, p) (list_elem_of_lookup_2 _ _ _ Hi)). simpl in Hall.
  destruct p as [tok nm asg reg [s|]]; simpl in *; [|done].
  destruct (Hall s eq_refl) as (Hne & Htrim & Hle).
  unfold normalize_ip. simpl. rewrite Htrim.
  apply falsy_false in Hne. rewrite Hne. by rewrite slice0_short.
Qed.

(** X21.  When every stored [ipAddress] is a non-empty trimmed text of at
    most 128 code units, the round trip is exact: in a world the server
    can reach, a write that succeeds followed by a load into a fresh
    process gives the very same variables, [ipAddress] included. *)
Theorem persist_then_load_is_exact config (w : World number) o now' :
  reachable config w ->
  Forall (fun p => forall s, ipAddress p = Some s ->
                     s <> EmptyString /\ trim s = s /\ String.length s <= 128)
         (JsMap.values (participants (memory w))) ->
  ~ persist_fails o ->
  loadPersistedState now' None (fst (persistState (memory w) o (disk w))) initial_state
  = Started (memory w).
Proof.
  intros Hreach Hips Hok.
  pose proof (reachable_storable config w Hreach) as Hst.
  rewrite (load_stringify now' _ (memory w) Hst).
  - by rewrite normalize_ips_settled.
  - apply persistState_success_store. by apply persistState_fulfils.
Qed.

End ExactRoundTrip.

(** *** Addresses with a port or in brackets *)

Lemma every_app p (a b : string) : every p (a ++ b) = every p a && every p b.
Proof. induction a as [|c a IH]; simpl; [done|]. by rewrite IH, andb_assoc. Qed.

Lemma every_impl (p q : ascii -> bool) s :
  (forall c, p c = true -> q c = true) -> every p s = true -> every q s = true.
Proof.
  intros Hpq. induction s as [|c s IH]; simpl; [done|].
  intros [Hc Hs]%andb_true_iff. by rewrite (Hpq c Hc), IH.
Qed.

Lemma length_append (a b : string) :
  String.length (a ++ b) = String.length a + String.length b.
Proof. induction a as [|c a IH]; simpl; [done|]. by rewrite IH. Qed.

Lemma append_assoc (a b c : string) : ((a ++ b) ++ c = a ++ (b ++ c))%string.
Proof.
  induction a as [|x a IH]; [done|].
  change (String x ((a ++ b) ++ c) = String x (a ++ (b ++ c))). by f_equal.
Qed.

Lemma trimEnd_every s :
  every (fun c => negb (is_whitespace c)) s = true -> trimEnd s = s.
Proof.
  induction s as [|c s IH]; simpl; [done|].
  intros [Hc Hs]%andb_true_iff. rewrite (IH Hs).
  apply negb_true_iff in Hc. rewrite Hc. by destruct s.
Qed.

Lemma trim_every s :
  every (fun c => negb (is_whitespace c)) s = true -> trim s = s.
Proof.
  intros Hs. unfold trim.
  assert (trimStart s = s) as ->; [|by apply trimEnd_every].
  destruct s as [|c s]; simpl in *; [done|].
  apply andb_true_iff in Hs as [Hc _]. apply negb_true_iff in Hc. by rewrite Hc.
Qed.

Lemma strip_final_quote_every s :
  every (fun c => negb (Ascii.eqb c quote)) s = true -> strip_final_quote s = s.
Proof.
  induction s as [|c s IH]; simpl; [done|].
  intros [Hc Hs]%andb_true_iff. apply negb_true_iff in Hc.
  destruct s as [|c' s]; [by rewrite Hc|]. by rewrite (IH Hs).
Qed.

Lemma strip_quotes_every s :
  every (fun c => negb (Ascii.eqb c quote)) s = true -> strip_quotes s = s.
Proof.
  intros Hs. pose proof (strip_final_quote_every s Hs) as Hfinal.
  destruct s as [|c s]; [done|]. unfold strip_quotes.
  simpl in Hs. apply andb_true_iff in Hs as [Hc _]. apply negb_true_iff in Hc.
  by rewrite Hc.
Qed.

Lemma split_every sep s :
  every (fun c => negb (Ascii.eqb c sep)) s = true -> split sep s = [s].
Proof.
  induction s as [|c s IH]; simpl; [done|].
  intros [Hc Hs]%andb_true_iff. apply negb_true_iff in Hc. by rewrite Hc, (IH Hs).
Qed.

Lemma indexOf_every c s :
  every (fun a => negb (Ascii.eqb a c)) s = true -> indexOf c s = None.
Proof.
  induction s as [|a s IH]; simpl; [done|].
  intros [Ha Hs]%andb_true_iff. apply negb_true_iff in Ha. by rewrite Ha, (IH Hs).
Qed.

Lemma lastIndexOf_every c s :
  every (fun a => negb (Ascii.eqb a c)) s = true -> lastIndexOf c s = None.
Proof.
  induction s as [|a s IH]; simpl; [done|].
  intros [Ha Hs]%andb_true_iff. apply negb_true_iff in Ha. by rewrite Ha, (IH Hs).
Qed.

Lemma indexOf_app c (a b : string) :
  every (fun x => negb (Ascii.eqb x c)) a = true ->
  indexOf c (a ++ String c b) = Some (String.length a).
Proof.
  induction a as [|x a IH]; simpl; [by rewrite Ascii.eqb_refl|].
  intros [Hx Ha]%andb_true_iff. apply negb_true_iff in Hx. by rewrite Hx, (IH Ha).
Qed.

Lemma lastIndexOf_app c (a b : string) :
  every (fun x => negb (Ascii.eqb x c)) b = true ->
  lastIndexOf c (a ++ String c b) = Some (String.length a).
Proof.
  intros Hb. induction a as [|x a IH]; simpl.
  - by rewrite (lastIndexOf_every c b Hb), Ascii.eqb_refl.
  - by rewrite IH.
Qed.

Lemma substring_all s : substring 0 (String.length s) s = s.
Proof. induction s as [|c s IH]; simpl; [done|]. by rewrite IH. Qed.

Lemma substring_prefix (a b : string) : substring 0 (String.length a) (a ++ b) = a.
Proof.
  induction a as [|c a IH]; simpl; [by destruct b|]. by rewrite IH.
Qed.

Lemma substring_skip (a b : string) n :
  substring (String.length a) n (a ++ b) = substring 0 n b.
Proof. induction a as [|c a IH]; simpl; [done|]. exact IH. Qed.

Lemma is_digit_host_char c : is_digit c = true -> host_char c = true.
Proof.
  destruct c as [[] [] [] [] [] [] [] []]; vm_compute; congruence.
Qed.

Lemma all_digits_every s : all_digits s = true -> every is_digit s = true.
Proof.
  induction s as [|c s IH]; simpl; [done|].
  destruct s as [|c' s]; [intros ->; done|].
  intros [Hc Hs]%andb_true_iff. by rewrite Hc, (IH Hs).
Qed.

Lemma plain_char_facts c :
  plain_char c = true ->
  negb (is_whitespace c) = true /\ negb (Ascii.eqb c ",") = true
  /\ negb (Ascii.eqb c quote) = true.
Proof. unfold plain_char. by intros [[? ?]%andb_true_iff ?]%andb_true_iff. Qed.

(** On a text without white space, commas and quotes the first steps of
    [normalizeIpCandidate] change nothing. *)
Lemma normalizeIpCandidate_plain v :
  v <> EmptyString -> every plain_char v = true ->
  normalizeIpCandidate (Some v)
  = match (if startsWith "[" v then indexOf "]" v else None) with
    | Some closingIndex =>
        if falsy (trim (slice 1 closingIndex v)) then None
        else Some (slice0 128 (trim (slice 1 closingIndex v)))
    | None => strip_port v
    end.
Proof.
  intros Hne Hplain. unfold normalizeIpCandidate.
  assert (Htrim : trim v = v).
  { apply trim_every. eapply every_impl; [|exact Hplain].
    intros c Hc. by apply plain_char_facts in Hc as (? & _). }
  assert (Hquotes : strip_quotes v = v).
  { apply strip_quotes_every. eapply every_impl; [|exact Hplain].
    intros c Hc. by apply plain_char_facts in Hc as (_ & _ & ?). }
  assert (Hsplit : split "," v = [v]).
  { apply split_every. eapply every_impl; [|exact Hplain].
    intros c Hc. by apply plain_char_facts in Hc as (_ & ? & _). }
  apply falsy_false in Hne.
  rewrite Hne, Htrim, Hquotes, Hne, Hsplit. simpl. by rewrite Htrim, Hne.
Qed.

(** X22.  A host followed by a colon and a port is stored without the
    port: for a host that is not empty and has no white space, comma,
    quote, colon or bracket, and a port made of digits,
    [normalizeIpCandidate] returns the host (cut to 128 code units). *)
Theorem port_is_stripped host port :
  host <> EmptyString ->
  every host_char host = true ->
  all_digits port = true ->
  normalizeIpCandidate (Some (host ++ String ":" port)) = Some (slice0 128 host).
Proof.
  intros Hne Hhost Hport.
  assert (Hdigits : every host_char port = true).
  { eapply every_impl; [apply is_digit_host_char | by apply all_digits_every]. }
  assert (Hfacts : forall c, host_char c = true ->
            plain_char c = true /\ negb (Ascii.eqb c ":") = true
            /\ negb (Ascii.eqb c "[") = true).
  { intros c. unfold host_char.
    by intros [[[? ?]%andb_true_iff ?]%andb_true_iff ?]%andb_true_iff. }
  rewrite normalizeIpCandidate_plain.
  2:{ destruct host; done. }
  2:{ rewrite every_app. simpl.
      rewrite (every_impl host_char plain_char host), (every_impl host_char plain_char port);
        try done; intros c Hc; by apply Hfacts in Hc as (? & _). }
  assert (Hstart : startsWith "[" (host ++ String ":" port) = false).
  { destruct host as [|c host]; [done|]. simpl in *.
    apply andb_true_iff in Hhost as [Hc _].
    apply Hfacts in Hc as (_ & _ & Hc). by apply negb_true_iff in Hc. }
  rewrite Hstart. unfold strip_port.
  rewrite lastIndexOf_app, indexOf_app.
  2:{ eapply every_impl; [|exact Hhost]. intros c Hc. by apply Hfacts in Hc as (_ & ? & _). }
  2:{ eapply every_impl; [|exact Hdigits]. intros c Hc. by apply Hfacts in Hc as (_ & ? & _). }
  rewrite Nat.eqb_refl. simpl.
  assert (Hafter : slice_from (String.length host + 1) (host ++ String ":" port) = port).
  { unfold slice_from. rewrite length_append. simpl.
    replace (String.length host + 1) with (String.length (host ++ String ":" EmptyString))
      by (rewrite length_append; simpl; lia).
    replace (host ++ String ":" port) with ((host ++ String ":" EmptyString) ++ port)
      by (by rewrite append_assoc).
    rewrite substring_skip, length_append. simpl.
    replace (String.length host + S (String.length port) - (String.length host + 1))
      with (String.length port) by lia.
    apply substring_all. }
  rewrite Hafter, Hport.
  assert (Hbefore : slice0 (String.length host) (host ++ String ":" port) = host)
    by apply substring_prefix.
  rewrite Hbefore.
  assert (Htrim : trim host = host).
  { apply trim_every. eapply every_impl; [|exact Hhost].
    intros c Hc. apply Hfacts in Hc as (Hc & _). by apply plain_char_facts in Hc as (? & _). }
  rewrite Htrim. apply falsy_false in Hne. by rewrite Hne.
Qed.

(** X23.  An address in brackets is stored without the brackets and
    without what follows them: for an inside that is not empty and has no
    white space, comma, quote or closing bracket, and a rest without white
    space, comma or quote, [normalizeIpCandidate] returns the inside (cut
    to 128 code units). *)
Theorem brackets_are_stripped inside rest :
  inside <> EmptyString ->
  every (fun c => plain_char c && negb (Ascii.eqb c "]")) inside = true ->
  every plain_char rest = true ->
  normalizeIpCandidate (Some (String "[" (inside ++ String "]" rest)))
  = Some (slice0 128 inside).
Proof.
  intros Hne Hinside Hrest.
  assert (Hplain : every plain_char inside = true).
  { eapply every_impl; [|exact Hinside]. by intros c [? _]%andb_true_iff. }
  rewrite normalizeIpCandidate_plain; [|done|].
  2:{ simpl. rewrite every_app. simpl. by rewrite Hplain, Hrest. }
  simpl.
  rewrite indexOf_app.
  2:{ eapply every_impl; [|exact Hinside]. by intros c [_ ?]%andb_true_iff. }
  simpl. unfold slice. simpl. rewrite Nat.sub_0_r, substring_prefix.
  assert (Htrim : trim inside = inside).
  { apply trim_every. eapply every_impl; [|exact Hplain].
    intros c Hc. by apply plain_char_facts in Hc as (? & _). }
  rewrite Htrim. apply falsy_false in Hne. by rewrite Hne.
Qed.

(** *** Lists of addresses and the [Forwarded] header *)

Lemma trimEnd_nonws c r :
  is_whitespace c = false -> exists r', trimEnd (String c r) = String c r'.
Proof. intros Hc. simpl. destruct (trimEnd r); [rewrite Hc|]; eauto. Qed.

Lemma trimEnd_app_keep (a b : string) :
  trimEnd b <> EmptyString -> trimEnd (a ++ b) = (a ++ trimEnd b)%string.
Proof.
  intros Hb. induction a as [|x a IH]; [done|].
  change (trimEnd (String x (a ++ b)) = String x (a ++ trimEnd b)).
  simpl. rewrite IH. destruct a as [|y a]; [|done].
  change (EmptyString ++ trimEnd b)%string with (trimEnd b). by destruct (trimEnd b).
Qed.

Lemma strip_final_quote_app (a b : string) :
  b <> EmptyString -> strip_final_quote (a ++ b) = (a ++ strip_final_quote b)%string.
Proof.
  intros Hb. induction a as [|x a IH]; [done|].
  change (strip_final_quote (String x (a ++ b)) = String x (a ++ strip_final_quote b)).
  rewrite <- IH. simpl.
  destruct a as [|y a]; [|done].
  change (EmptyString ++ b)%string with b. by destruct b.
Qed.

Lemma split_nonempty c s : split c s <> [].
Proof.
  destruct s as [|a s]; simpl; [done|].
  destruct (Ascii.eqb a c); [done|]. by destruct (split c s).
Qed.

Lemma split_app c (a b : string) :
  every (fun x => negb (Ascii.eqb x c)) a = true ->
  split c (a ++ b) = (a ++ hd EmptyString (split c b))%string :: tl (split c b).
Proof.
  induction a as [|x a IH].
  - intros _. change (EmptyString ++ b)%string with b.
    pose proof (split_nonempty c b). by destruct (split c b).
  - intros [Hx Ha]%andb_true_iff. apply negb_true_iff in Hx.
    change (split c (String x (a ++ b))
            = String x (a ++ hd EmptyString (split c b)) :: tl (split c b)).
    simpl. by rewrite Hx, (IH Ha).
Qed.

Lemma until_semicolon_app (a t : string) :
  every (fun c => negb (Ascii.eqb c ";")) a = true ->
  t = EmptyString \/ startsWith ";" t = true ->
  until_semicolon (a ++ t) = a.
Proof.
  intros Ha Ht. induction a as [|x a IH].
  - change (EmptyString ++ t)%string with t.
    destruct Ht as [->|Ht]; [done|]. destruct t as [|c t]; [done|].
    simpl in *. by rewrite Ht.
  - simpl in Ha. apply andb_true_iff in Ha as [Hx Ha]. apply negb_true_iff in Hx.
    change (until_semicolon (String x (a ++ t)) = String x a).
    simpl. by rewrite Hx, (IH Ha).
Qed.

Lemma append_empty_r (a : string) : a ++ "" = a.
Proof.
  induction a as [|x a IH]; [done|]. change (String x (a ++ "") = String x a). by f_equal.
Qed.

(** X24.  Of a list of addresses separated by commas only the first
    counts: when the text before the first comma is not empty and has no
    white space, comma or quote, [normalizeIpCandidate] returns what it
    returns for that text alone, whatever follows the comma. *)
Theorem first_entry_decides (a rest : string) :
  a <> EmptyString ->
  every plain_char a = true ->
  normalizeIpCandidate (Some (a ++ String "," rest)) = normalizeIpCandidate (Some a).
Proof.
  intros Hne Hplain.
  rewrite (normalizeIpCandidate_plain a Hne Hplain).
  assert (Hws : every (fun c => negb (is_whitespace c)) a = true).
  { eapply every_impl; [|exact Hplain].
    intros c Hc. by apply plain_char_facts in Hc as (? & _). }
  assert (Hcomma : every (fun c => negb (Ascii.eqb c ",")) a = true).
  { eapply every_impl; [|exact Hplain].
    intros c Hc. by apply plain_char_facts in Hc as (_ & ? & _). }
  destruct (trimEnd_nonws "," rest eq_refl) as [r1 Hr1].
  assert (Htrim : trim (a ++ String "," rest) = (a ++ String "," r1)%string).
  { unfold trim.
    assert (trimStart (a ++ String "," rest) = (a ++ String "," rest)%string) as ->.
    { destruct a as [|x a]; [done|]. simpl in Hws.
      apply andb_true_iff in Hws as [Hx _]. apply negb_true_iff in Hx.
      change (trimStart (String x (a ++ String "," rest)) = String x (a ++ String "," rest)).
      simpl. by rewrite Hx. }
    rewrite trimEnd_app_keep; rewrite Hr1; done. }
  assert (Hquotes : exists r2, strip_quotes (a ++ String "," r1) = (a ++ String "," r2)%string).
  { assert (Hfinal : exists r2, strip_final_quote (String "," r1) = String "," r2).
    { destruct r1 as [|y r1]; simpl; eauto. }
    destruct Hfinal as [r2 Hr2]. exists r2.
    rewrite <- Hr2, <- strip_final_quote_app by done.
    destruct a as [|x a]; [done|]. simpl in Hplain.
    apply andb_true_iff in Hplain as [Hx _].
    apply plain_char_facts in Hx as (_ & _ & Hx). apply negb_true_iff in Hx.
    change (strip_quotes (String x (a ++ String "," r1))
            = strip_final_quote (String x (a ++ String "," r1))).
    unfold strip_quotes. by rewrite Hx. }
  destruct Hquotes as [r2 Hr2].
  unfold normalizeIpCandidate.
  assert (Hv : falsy (a ++ String "," rest) = false) by (by destruct a).
  assert (Hv2 : falsy (a ++ String "," r2) = false) by (by destruct a).
  rewrite Hv, Htrim, Hr2, Hv2, (split_app "," a _ Hcomma).
  cbn [hd split]. rewrite Ascii.eqb_refl. cbn [hd].
  rewrite append_empty_r, (trim_every a Hws).
  apply falsy_false in Hne. by rewrite Hne.
Qed.

Lemma match_for_here (f o r : ascii) (after : string) :
  is_letter "f" "F" f = true -> is_letter "o" "O" o = true -> is_letter "r" "R" r = true ->
  until_semicolon after <> EmptyString ->
  match_for (String f (String o (String r (String "=" after))))
  = Some (until_semicolon after).
Proof.
  intros Hf Ho Hr Hne.
  change (match_for (String f (String o (String r (String "=" after)))))
    with (if is_letter "f" "F" f && is_letter "o" "O" o && is_letter "r" "R" r
             && Ascii.eqb "=" "="
             && negb (falsy (until_semicolon after))
          then Some (until_semicolon after)
          else match_for (String o (String r (String "=" after)))).
  apply falsy_false in Hne. by rewrite Hf, Ho, Hr, Hne.
Qed.

(** X25.  [parseForwardedHeader] reads the address after [for=], in
    whatever case [for] is written.  When the header starts with [for=]
    followed by a text that is not empty and has no white space, comma,
    quote or semicolon, and then ends or goes on with a semicolon: if
    [normalizeIpCandidate] makes an address of that text, this address is
    the result, whatever the later entries say; if it makes none, the
    loop goes on and the entries after the first comma decide. *)
Theorem forwarded_for_is_read (f o r : ascii) (a tail : string) :
  is_letter "f" "F" f = true -> is_letter "o" "O" o = true -> is_letter "r" "R" r = true ->
  a <> EmptyString ->
  every (fun c => plain_char c && negb (Ascii.eqb c ";")) a = true ->
  tail = EmptyString \/ startsWith ";" tail = true ->
  parseForwardedHeader (Some (String f (String o (String r (String "=" (a ++ tail))))))
  = match normalizeIpCandidate (Some a) with
    | Some candidate => Some candidate
    | None => first_forwarded (tl (split "," tail))
    end.
Proof.
  intros Hf Ho Hr Hne Ha Htail.
  assert (Hcomma : every (fun c => negb (Ascii.eqb c ",")) a = true).
  { eapply every_impl; [|exact Ha].
    intros c [Hc _]%andb_true_iff. by apply plain_char_facts in Hc as (_ & ? & _). }
  assert (Hsemi : every (fun c => negb (Ascii.eqb c ";")) a = true).
  { eapply every_impl; [|exact Ha]. by intros c [_ ?]%andb_true_iff. }
  unfold parseForwardedHeader. cbn [falsy].
  change (String f (String o (String r (String "=" (a ++ tail)))))
    with (String f (String o (String r (String "=" a))) ++ tail).
  rewrite split_app.
  2:{ cbn [every]. rewrite Hcomma.
      unfold is_letter in Hf, Ho, Hr.
      apply orb_true_iff in Hf as [->%Ascii.eqb_eq| ->%Ascii.eqb_eq];
      apply orb_true_iff in Ho as [->%Ascii.eqb_eq| ->%Ascii.eqb_eq];
      apply orb_true_iff in Hr as [->%Ascii.eqb_eq| ->%Ascii.eqb_eq]; reflexivity. }
  set (t0 := hd EmptyString (split "," tail)).
  assert (Ht0 : t0 = EmptyString \/ startsWith ";" t0 = true).
  { subst t0. destruct Htail as [->|Htail]; [by left|]. right.
    destruct tail as [|c tail]; [done|]. simpl in Htail.
    apply Ascii.eqb_eq in Htail as ->. simpl.
    pose proof (split_nonempty "," tail). by destruct (split "," tail). }
  change (String f (String o (String r (String "=" a))) ++ t0)
    with (String f (String o (String r (String "=" (a ++ t0))))).
  cbn [first_forwarded].
  rewrite (match_for_here f o r (a ++ t0) Hf Ho Hr);
    rewrite (until_semicolon_app a t0 Hsemi Ht0); [|done].
  reflexivity.
Qed.

(** * The further properties on the example data *)

Lemma example_addressed_world_reachable :
  reachable example_config example_addressed_world.
Proof.
  destruct (register example_join (example_platform example_io_ok) example_old_world)
    as [run|] eqn:Hrun; [|vm_compute in Hrun; discriminate Hrun].
  assert (Hfinal : example_addressed_world = final run).
  { unfold example_addressed_world. by rewrite Hrun. }
  rewrite Hfinal.
  exact (reach_register example_config example_join (example_platform example_io_ok)
           example_old_world run example_old_world_reachable
           (example_platform_ok example_io_ok) Hrun).
Qed.

Lemma X1_witness :
  reachable example_config example_old_world
  /\ NoDup (JsMap.keys (participants (memory example_old_world)))
  /\ NoDup (token <$> JsMap.values (participants (memory example_old_world))).
Proof.
  destruct (tokens_unique_in_reachable_worlds example_config example_old_world
              example_old_world_reachable) as (Hkeys & Htokens & _).
  split; [apply example_old_world_reachable|]. split; [exact Hkeys | exact Htokens].
Defined.



Lemma X4_witness :
  let shuffled := shuffle example_config example_admin (example_platform example_io_ok)
                          example_world in
  registry_ok (participants (memory example_world))
  /\ status (reply shuffled) = 200
  /\ in_sync (final shuffled).
Proof.
  intros shuffled.
  assert (Hstatus : status (reply shuffled) = 200) by (vm_compute; reflexivity).
  split; [apply example_world_ok|]. split; [exact Hstatus|].
  exact (proj1 (proj2 (store_file_follows_memory
                         example_config example_admin (example_platform example_io_ok)
                         example_world example_world_ok))
               (or_introl Hstatus)).
Defined.

Lemma X5_witness :
  let written := persistState (memory example_world) example_io_ok example_disk in
  snd written = true
  /\ files (fst written) !! tempPath (temp_uuid example_io_ok) = None.
Proof.
  intros written.
  assert (Hok : snd written = true) by (vm_compute; reflexivity).
  split; [exact Hok|].
  exact (proj1 (proj2 (proj2 (persistState_touches_only_its_files
                                (memory example_world) example_io_ok example_disk)))
               Hok).
Defined.

Lemma X7_witness :
  NoDup (Persisted.token <$> Persisted.participants (captureState (memory example_world)))
  /\ captureState (restoreState (captureState (memory example_world)))
     = captureState (memory example_world).
Proof.
  assert (Hnd : NoDup (Persisted.token
                         <$> Persisted.participants (captureState (memory example_world))))
    by compute_done.
  split; [exact Hnd|]. exact (capture_restore_distinct _ Hnd).
Defined.


Lemma X9_witness :
  let st' := memory (final (shuffle example_config example_admin
                                    (example_platform example_io_ok) example_old_world)) in
  registry_ok (participants (memory example_old_world))
  /\ JsMap.keys (participants (memory example_old_world)) = ["a1"; "b2"]
  /\ status (reply (shuffle example_config example_admin
                            (example_platform example_io_ok) example_old_world)) = 200
  /\ receiver st' "a1" = Some "b2" /\ receiver st' "b2" = Some "a1".
Proof.
  intros st'.
  assert (Hstatus : status (reply (shuffle example_config example_admin
                                           (example_platform example_io_ok)
                                           example_old_world)) = 200)
    by (vm_compute; reflexivity).
  split; [apply example_old_world_ok|]. split; [reflexivity|]. split; [exact Hstatus|].
  exact (two_participants_give_to_each_other
           example_config example_admin (example_platform example_io_ok)
           example_old_world "a1" "b2" example_old_world_ok eq_refl Hstatus).
Defined.



Lemma X12_witness :
  registry_ok (participants (memory example_world))
  /\ Status.participantCount
       (status_page (memory (final (shuffle example_config example_admin
                                            (example_platform example_io_ok)
                                            example_world))))
     = Status.participantCount (status_page (memory example_world)).
Proof.
  split; [apply example_world_ok|].
  exact (proj1 (proj2 (participant_count_moves_by_registrations
                         example_config example_admin (example_platform example_io_ok)
                         example_world example_world_ok))).
Defined.

Lemma X14_witness :
  (forall a b, (0 < example_collation a b -> example_collation b a <= 0)%Z)
  /\ (forall a b c, (example_collation a b <= 0 -> example_collation b c <= 0 ->
                     example_collation a c <= 0)%Z)
  /\ StronglySorted
       (fun x y => (example_collation (Listing.registeredAt x) (Listing.registeredAt y)
                    <= 0)%Z)
       (Listing.participants (listing example_collation (memory example_world))).
Proof.
  assert (Htotal : forall a b, (0 < example_collation a b -> example_collation b a <= 0)%Z)
    by (unfold example_collation; lia).
  assert (Htrans : forall a b c, (example_collation a b <= 0 -> example_collation b c <= 0 ->
                                  example_collation a c <= 0)%Z)
    by (unfold example_collation; lia).
  split; [exact Htotal|]. split; [exact Htrans|].
  exact (listing_is_ordered_by_registeredAt example_collation (memory example_world)
           Htotal Htrans).
Defined.


Lemma X16_witness :
  authorizeAdmin example_config example_join = false
  /\ final (shuffle example_config example_join (example_platform example_io_ok)
                    example_world) = example_world
  /\ final (reopen example_config example_join (example_platform example_io_ok)
                   example_world) = example_world.
Proof.
  assert (Hno : authorizeAdmin example_config example_join = false) by reflexivity.
  destruct (proj2 (admin_routes_need_the_password
                     example_collation example_config example_join
                     (example_platform example_io_ok) example_world) Hno)
    as (Hshuffle & _ & Hreopen & _).
  split; [exact Hno|]. split; [exact Hshuffle | exact Hreopen].
Defined.

Lemma X17_witness :
  loadConfig example_config_disk = inr example_config
  /\ (authorizeAdmin example_config example_admin = true
      <-> trim " rhodes-island " = trim "  rhodes-island ").
Proof.
  assert (Hload : loadConfig example_config_disk = inr example_config)
    by (vm_compute; reflexivity).
  split; [exact Hload|].
  refine (proj2 (loadConfig_trims_the_password example_config_disk example_config)
                [("adminPassword", JStr "  rhodes-island ")] "  rhodes-island "
                example_admin [("password", JStr " rhodes-island ")] " rhodes-island "
                _ eq_refl Hload eq_refl eq_refl).
  vm_compute. reflexivity.
Defined.

Lemma X18_witness :
  files example_old_disk !! PARTICIPANTS_FILE = Some (JsonText example_old_store)
  /\ exists st,
       loadPersistedState "2024-12-01T10:00:00.000Z" None example_old_disk initial_state
       = Started st.
Proof.
  assert (Hfile : files example_old_disk !! PARTICIPANTS_FILE
                  = Some (JsonText example_old_store)) by (vm_compute; reflexivity).
  split; [exact Hfile|].
  apply (proj2 (startup_is_fatal_exactly_on_bad_stores
                  "2024-12-01T10:00:00.000Z" example_old_disk initial_state)
               (JsonText example_old_store) Hfile).
  eexists _, _. split; [reflexivity|]. split; [reflexivity|]. split; [reflexivity|].
  repeat constructor; eexists; reflexivity.
Defined.

Lemma X19_witness :
  exists run new_token,
    register example_join (example_platform example_io_ok) example_world = Some run
    /\ status (reply run) = 201
    /\ body (reply run) = Registered new_token "Doctor" false
    /\ indexOf "-" new_token = None.
Proof.
  eexists. eexists. split; [vm_compute; reflexivity|].
  match goal with
  | |- status (reply ?r) = 201 /\ _ =>
      assert (Hrun : register example_join (example_platform example_io_ok)
                              example_world = Some r) by (vm_compute; reflexivity);
      assert (Hstatus : status (reply r) = 201) by reflexivity;
      destruct (registered_token_is_first_free_draw
                  example_join (example_platform example_io_ok) example_world r
                  Hrun Hstatus)
        as (t & n & e & u & l & Hbody & _ & _ & _ & _ & Hhyphen & _)
  end.
  split; [exact Hstatus|]. simpl in Hbody. injection Hbody as <- <-.
  split; [reflexivity | exact Hhyphen].
Defined.

Lemma X20_witness :
  getRequestIp example_headers = Some "203.0.113.7"
  /\ address_like "203.0.113.7".
Proof.
  assert (Hip : getRequestIp example_headers = Some "203.0.113.7")
    by (vm_compute; reflexivity).
  split; [exact Hip|].
  exact (proj1 (extracted_address_is_bounded example_headers) "203.0.113.7" Hip).
Defined.

Lemma X21_witness :
  reachable example_config example_addressed_world
  /\ ipAddress <$> JsMap.values (participants (memory example_addressed_world))
     = [None; None; Some "203.0.113.7"]
  /\ ~ persist_fails example_io_ok
  /\ loadPersistedState "2025-01-01T00:00:00.000Z" None
       (fst (persistState (memory example_addressed_world) example_io_ok
                          (disk example_addressed_world)))
       initial_state
     = Started (memory example_addressed_world).
Proof.
  assert (Hok : ~ persist_fails example_io_ok)
    by (intros [H|H]; [by apply H | discriminate H]).
  assert (Hips : ipAddress <$> JsMap.values (participants (memory example_addressed_world))
                 = [None; None; Some "203.0.113.7"]) by (vm_compute; reflexivity).
  split; [apply example_addressed_world_reachable|]. split; [exact Hips|].
  split; [exact Hok|].
  apply (persist_then_load_is_exact example_config example_addressed_world example_io_ok
           "2025-01-01T00:00:00.000Z" example_addressed_world_reachable); [|exact Hok].
  apply (Forall_fmap ipAddress
           (fun a => forall s, a = Some s ->
                       s <> EmptyString /\ trim s = s /\ String.length s <= 128)).
  rewrite Hips.
  apply Forall_cons_2; [intros s Hs; discriminate Hs|].
  apply Forall_cons_2; [intros s Hs; discriminate Hs|].
  apply Forall_cons_2; [|apply Forall_nil_2].
  intros s [= <-]. split; [discriminate|]. split; [reflexivity|]. vm_compute. lia.
Defined.

Lemma X22_witness :
  every host_char "203.0.113.7" = true
  /\ all_digits "8080" = true
  /\ normalizeIpCandidate (Some "203.0.113.7:8080") = Some "203.0.113.7".
Proof.
  split; [reflexivity|]. split; [reflexivity|].
  exact (port_is_stripped "203.0.113.7" "8080" ltac:(discriminate) eq_refl eq_refl).
Defined.

Lemma X23_witness :
  every (fun c => plain_char c && negb (Ascii.eqb c "]")) "2001:db8::1" = true
  /\ every plain_char ":443" = true
  /\ normalizeIpCandidate (Some "[2001:db8::1]:443") = Some "2001:db8::1".
Proof.
  split; [reflexivity|]. split; [reflexivity|].
  exact (brackets_are_stripped "2001:db8::1" ":443" ltac:(discriminate) eq_refl eq_refl).
Defined.

Lemma X24_witness :
  every plain_char "203.0.113.7" = true
  /\ normalizeIpCandidate (Some "203.0.113.7, 10.0.0.1") = Some "203.0.113.7".
Proof.
  split; [reflexivity|].
  exact (first_entry_decides "203.0.113.7" " 10.0.0.1" ltac:(discriminate) eq_refl).
Defined.

Lemma X25_witness :
  parseForwardedHeader (Some "For=198.51.100.4;proto=https, for=10.0.0.1")
  = Some "198.51.100.4"
  /\ normalizeIpCandidate (Some ":80") = None
  /\ parseForwardedHeader (Some "for=:80;proto=https, for=1.2.3.4") = Some "1.2.3.4".
Proof.
  split; [|split; [reflexivity|]].
  - exact (forwarded_for_is_read "F" "o" "r" "198.51.100.4" ";proto=https, for=10.0.0.1"
             eq_refl eq_refl eq_refl ltac:(discriminate) eq_refl (or_intror eq_refl)).
  - exact (forwarded_for_is_read "f" "o" "r" ":80" ";proto=https, for=1.2.3.4"
             eq_refl eq_refl eq_refl ltac:(discriminate) eq_refl (or_intror eq_refl)).
Defined.
